(** * Sidebar navigation, layout shell and settings table of suna-agent

    A shallow embedding of
    - [frontend/src/components/sidebar/nav-agents.tsx]
      ([ThreadItem], [NavAgents], [handleThreadClick]),
    - [frontend/src/components/layout/app-providers.tsx] ([AppProviders]),
    - [frontend/src/components/dashboard/layout-content.tsx]
      ([DashboardLayoutContent]),
    - [frontend/src/components/sidebar/sidebar-left.tsx]
      ([SidebarLeft]: the route-change effect and [handleKeyDown];
      [FloatingMobileMenuButton]),
    - [backend/supabase/migrations/20250815120000_create_settings_table.sql]
      (table [settings], trigger [handle_settings_updated_at]).

    React components are pure functions from hook results to an element
    tree; event handlers and effects are functions on the state they
    close over; the SQL statements are functions on the table that can
    fail with a constraint violation. *)

From Stdlib Require Import String Ascii List Bool ZArith Lia.
From stdpp Require Import base option list.
Import ListNotations.

Local Open Scope string_scope.
Local Open Scope list_scope.

(** ** JavaScript strings

    The strings of the program (thread ids, paths, key names) are
    sequences of code units; [String.string] is a sequence of bytes, which
    is the same thing for the ASCII text the program handles. *)

Module JS.

(** [s.startsWith(p)] *)
Fixpoint startsWith (s p : string) {struct p} : bool :=
  match p, s with
  | EmptyString, _ => true
  | String _ _, EmptyString => false
  | String c p', String d s' =>
      if Ascii.eqb c d then startsWith s' p' else false
  end.

(** [s.includes(p)]: [p] starts at some position of [s]. *)
Fixpoint includes (s p : string) : bool :=
  startsWith s p ||
  match s with
  | EmptyString => false
  | String _ s' => includes s' p
  end.

(** Truthiness of a string: every string but the empty one. *)
Definition truthy (s : string) : bool :=
  match s with EmptyString => false | String _ _ => true end.

(** [a || b] where [a] is a string that may be [undefined]. *)
Definition or_else (a : option string) (b : string) : string :=
  match a with
  | Some s => if truthy s then s else b
  | None => b
  end.

(** [p] occurs in [s] as a contiguous run. *)
Definition substring_of (p s : string) : Prop :=
  exists pre post, s = (pre ++ p ++ post)%string.

End JS.

(** ** Element trees

    What a component returns.  [Null] is what React draws for [null] and
    for [false]; [Fragment] is [<>...</>].  Of the attributes, those that
    depend on data ([href], [iconName], the conditional part of
    [className]) are kept; constant styling classes and React's [key]s,
    which are not drawn, are left out. *)

#[local] Set Warnings "-register-all".

Inductive Element : Type :=
| Null
| Text (s : string)
| Fragment (children : list Element)
| Elem (tag : string) (attrs : list (string * string))
       (children : list Element).

(** Whether an element with tag [tag] occurs in the tree. *)
Fixpoint mentions (tag : string) (e : Element) : bool :=
  match e with
  | Null | Text _ => false
  | Fragment cs => existsb (mentions tag) cs
  | Elem t _ cs => String.eqb t tag || existsb (mentions tag) cs
  end.

(** The value of attribute [a], if the element has it. *)
Definition attr (a : string) (e : Element) : option string :=
  match e with
  | Elem _ attrs _ =>
      match find (fun kv => String.eqb (fst kv) a) attrs with
      | Some kv => Some (snd kv)
      | None => None
      end
  | _ => None
  end.

(** What is drawn: the tree with [Null]s dropped and fragments spliced
    into their parent. *)
Fixpoint drawn (e : Element) : list Element :=
  match e with
  | Null => []
  | Text s => [Text s]
  | Fragment cs => flat_map drawn cs
  | Elem t attrs cs => [Elem t attrs (flat_map drawn cs)]
  end.

(** ** Hook results *)

(** A JavaScript [Error] object; as an object it is truthy whatever its
    message. *)
Record Error : Type := { message : string }.

(** What a query hook ([useThreads], [useApiHealth]) returns: the data
    when there is some, whether the first load is in flight, the error if
    the request failed. *)
Record Query (A : Type) : Type := {
  data : option A;
  isLoading : bool;
  error : option Error
}.
Arguments data {A} _.
Arguments isLoading {A} _.
Arguments error {A} _.

(** Modelled from the spec: the sidebar provider ([useSidebar] of
    [@/components/ui/sidebar]) is not among the sources.  It owns the
    desktop flag [open] and the mobile overlay flag [openMobile]; [state]
    is ["expanded"] when the desktop flag is set and ["collapsed"]
    otherwise; each setter writes its own flag and no other. *)
Record SidebarContext : Type := {
  open : bool;
  openMobile : bool
}.

(** Modelled from the spec: [state] of [useSidebar], one of ["expanded"]
    and ["collapsed"], following the desktop flag. *)
Definition state (c : SidebarContext) : string :=
  if open c then "expanded" else "collapsed".

(** Modelled from the spec: [setOpen] of [useSidebar] writes the desktop
    flag and leaves the mobile overlay alone. *)
Definition setOpen (b : bool) (c : SidebarContext) : SidebarContext :=
  {| open := b; openMobile := openMobile c |}.

(** Modelled from the spec: [setOpenMobile] of [useSidebar] writes the
    mobile overlay flag and leaves the desktop flag alone. *)
Definition setOpenMobile (b : bool) (c : SidebarContext) : SidebarContext :=
  {| open := open c; openMobile := b |}.

(** ** Events *)

Module Mouse.
Record event : Type := {
  metaKey : bool;
  ctrlKey : bool;
  shiftKey : bool;
  altKey : bool
}.
End Mouse.

Module Keyboard.
Record event : Type := {
  key : string;
  metaKey : bool;
  ctrlKey : bool;
  shiftKey : bool;
  altKey : bool
}.
End Keyboard.

(** [new CustomEvent(type, { detail: { expanded } })] *)
Record CustomEvent : Type := {
  type : string;
  detail_expanded : bool
}.

(** ** The state the handlers write

    [sidebar] is the provider's state, [loadingThreadId] the [useState]
    cell of [NavAgents], [dispatched] the events handed to
    [window.dispatchEvent] (latest first), [defaultPrevented] the flag of
    the DOM event being handled. *)
Record World : Type := {
  sidebar : SidebarContext;
  loadingThreadId : option string;
  dispatched : list CustomEvent;
  defaultPrevented : bool
}.

(** Handlers are sequences of setter calls: a state monad over [World]. *)
Definition Action (A : Type) : Type := World -> A * World.

Definition ret {A : Type} (a : A) : Action A := fun w => (a, w).

Definition bind {A B : Type} (m : Action A) (k : A -> Action B) : Action B :=
  fun w => let (a, w') := m w in k a w'.

Notation "m >> k" := (bind m (fun _ => k))
  (at level 90, right associativity).

Definition when (b : bool) (m : Action unit) : Action unit :=
  if b then m else ret tt.

Definition exec {A : Type} (m : Action A) (w : World) : World := snd (m w).

Definition callSetOpen (b : bool) : Action unit := fun w =>
  (tt, {| sidebar := setOpen b (sidebar w);
          loadingThreadId := loadingThreadId w;
          dispatched := dispatched w;
          defaultPrevented := defaultPrevented w |}).

Definition callSetOpenMobile (b : bool) : Action unit := fun w =>
  (tt, {| sidebar := setOpenMobile b (sidebar w);
          loadingThreadId := loadingThreadId w;
          dispatched := dispatched w;
          defaultPrevented := defaultPrevented w |}).

Definition setLoadingThreadId (v : option string) : Action unit := fun w =>
  (tt, {| sidebar := sidebar w;
          loadingThreadId := v;
          dispatched := dispatched w;
          defaultPrevented := defaultPrevented w |}).

Definition preventDefault : Action unit := fun w =>
  (tt, {| sidebar := sidebar w;
          loadingThreadId := loadingThreadId w;
          dispatched := dispatched w;
          defaultPrevented := true |}).

Definition dispatchEvent (e : CustomEvent) : Action unit := fun w =>
  (tt, {| sidebar := sidebar w;
          loadingThreadId := loadingThreadId w;
          dispatched := e :: dispatched w;
          defaultPrevented := defaultPrevented w |}).

(** ** [nav-agents.tsx] *)

Record Thread : Type := {
  thread_id : string;
  name : string;
  updated_at : string;
  iconName : option string
}.

Record ThreadsResponse : Type := { threads : list Thread }.

(** [loadingThreadId === thread.thread_id] *)
Definition isThreadLoading (loading : option string) (id : string) : bool :=
  match loading with
  | Some l => String.eqb l id
  | None => false
  end.

(** [pathname?.includes(thread.thread_id) || false] *)
Definition isActive (pathname : option string) (id : string) : bool :=
  match pathname with
  | Some p => JS.includes p id
  | None => false
  end.

Definition handleThreadClick (isMobile : bool) (e : Mouse.event)
    (threadId url : string) : Action unit :=
  when (negb (Mouse.metaKey e)) (setLoadingThreadId (Some threadId)) >>
  when isMobile (callSetOpenMobile false).

Section NavAgents.

(** [useTranslations('sidebar')] and [formatDateForList] come from
    modules outside the sources. *)
Variable t : string -> string.
Variable formatDateForList : string -> string.

Definition thread_url (thread : Thread) : string :=
  ("/agents/" ++ thread_id thread)%string.

Definition ThreadItem (thread : Thread) (active loading : bool) : Element :=
  Elem "SpotlightCard"
    [("className", if active then "bg-muted" else "bg-transparent")]
    [Elem "Link" [("href", thread_url thread)]
      [Elem "div" []
        [Elem "div" []
           [if loading then Elem "Loader2" [] []
            else Elem "ThreadIcon"
                   [("iconName", JS.or_else (iconName thread) "bot")] []];
         Elem "span" [] [Text (name thread)];
         Elem "div" []
           [Elem "span" [] [Text (formatDateForList (updated_at thread))]]]]].


(** The target of the link a row wraps. *)
Definition rowHref (row : Element) : option string :=
  match row with
  | Elem _ _ [link] => attr "href" link
  | _ => None
  end.

(** One placeholder row of the loading skeleton. *)
Definition skeletonRow (index : nat) : Element :=
  Elem "div" [] [Elem "div" [] []; Elem "div" [] []; Elem "div" [] []].

(** [Array.from({ length: 3 }).map((_, index) => ...)] in its wrapper. *)
Definition skeleton : Element :=
  Elem "div" [] (map skeletonRow (seq 0 3)).

Definition emptyMessage : Element :=
  Elem "div" [] [Text (t "noConversations")].

(** [threadsResponse?.threads || []] *)
Definition threadsOf (q : Query ThreadsResponse) : list Thread :=
  match data q with
  | Some r => threads r
  | None => []
  end.

(** [isThreadsLoading && threads.length === 0] *)
Definition navIsLoading (q : Query ThreadsResponse) : bool :=
  isLoading q && (length (threadsOf q) =? 0)%nat.

Definition threadRows (loading pathname : option string)
    (ths : list Thread) : list Element :=
  map (fun thread =>
         ThreadItem thread
           (isActive pathname (thread_id thread))
           (isThreadLoading loading (thread_id thread)))
      ths.

(** The ternary chain inside the visibility guard. *)
Definition threadList (loading pathname : option string)
    (q : Query ThreadsResponse) : Element :=
  if navIsLoading q then skeleton
  else if (0 <? length (threadsOf q))%nat
       then Fragment (threadRows loading pathname (threadsOf q))
       else emptyMessage.

(** [(state !== 'collapsed' || isMobile) && (<>...</>)] *)
Definition listRegion (st : string) (isMobile : bool)
    (loading pathname : option string) (q : Query ThreadsResponse)
    : Element :=
  if negb (String.eqb st "collapsed") || isMobile
  then Fragment [threadList loading pathname q]
  else Null.

Definition NavAgents (ctx : SidebarContext) (isMobile : bool)
    (loading pathname : option string) (q : Query ThreadsResponse)
    : Element :=
  Elem "div" []
    [Elem "div" [] [listRegion (state ctx) isMobile loading pathname q]].

End NavAgents.

(** ** [app-providers.tsx] *)

(** Components of other modules stay in the tree as elements named after
    them. *)
Definition SidebarLeftElement : Element := Elem "SidebarLeft" [] [].

Definition AppProviders (children : list Element) (showSidebar : bool)
    (sidebarSiblings : Element) : Element :=
  if negb showSidebar then Fragment children
  else Elem "SidebarProvider" []
         [SidebarLeftElement;
          Elem "SidebarInset" [] children;
          sidebarSiblings].

(** ** [layout-content.tsx] *)

Record Health : Type := { status : string }.

(** [healthData?.status === 'ok' && !healthError] *)
Definition isApiHealthy (q : Query Health) : bool :=
  match data q with
  | Some h => String.eqb (status h) "ok"
  | None => false
  end
  && negb (match error q with Some _ => true | None => false end).

Definition MaintenancePage : Element := Elem "MaintenancePage" [] [].

(** What the shell draws for a healthy API. *)
Definition applicationShell (children : list Element) : Element :=
  Elem "SidebarProvider" []
    [SidebarLeftElement;
     Elem "SidebarInset" []
       [Elem "div" [] children; Elem "PresentationViewerWrapper" [] []];
     Fragment [Elem "FloatingMobileMenuButton" [] []]].

(** The health query failed the test of [isApiHealthy]: the status is
    not exactly ["ok"] (or there is no response), or an error is set. *)
Definition unhealthy (q : Query Health) : Prop :=
  status <$> data q <> Some "ok" \/ error q <> None.

Definition DashboardLayoutContent (children : list Element)
    (q : Query Health) : Element :=
  if isLoading q then Null
  else if negb (isApiHealthy q) then MaintenancePage
  else AppProviders
         [Elem "div" [] children; Elem "PresentationViewerWrapper" [] []]
         true
         (Fragment [Elem "FloatingMobileMenuButton" [] []]).

(** ** [sidebar-left.tsx] *)

(** [if (!isMobile || openMobile) return null] *)
Definition FloatingMobileMenuButton (ctx : SidebarContext)
    (isMobile : bool) : Element :=
  if negb isMobile || openMobile ctx then Null
  else Elem "div" []
         [Elem "Tooltip" []
            [Elem "TooltipTrigger" []
               [Elem "Button" [("aria-label", "Open menu")]
                  [Elem "Menu" [] []]];
             Elem "TooltipContent" [] [Text "Open menu"]]].

(** The button's [onClick]. *)
Definition floatingButtonClick : Action unit :=
  callSetOpen true >> callSetOpenMobile true.

(** What [usePathname] and [useSearchParams] return. *)
Record Route : Type := {
  pathname : option string;
  searchParams : string
}.

Definition Route_eqb (r r' : Route) : bool :=
  match pathname r, pathname r' with
  | Some p, Some p' => String.eqb p p'
  | None, None => true
  | _, _ => false
  end
  && String.eqb (searchParams r) (searchParams r').

(** The body of the first effect of [SidebarLeft]. *)
Definition routeEffect (isMobile : bool) : Action unit :=
  when isMobile (callSetOpenMobile false).

(** React runs the effect after the first render and after every render
    in which one of [pathname], [searchParams], [isMobile] differs from
    the render before ([setOpenMobile] is a stable reference). *)
Definition afterRender (prev : option (Route * bool)) (r : Route)
    (isMobile : bool) : Action unit :=
  match prev with
  | None => routeEffect isMobile
  | Some (r0, m0) =>
      if Route_eqb r0 r && Bool.eqb m0 isMobile then ret tt
      else routeEffect isMobile
  end.

(** The listener of the second effect.  It closes over [state] of the
    render that registered it. *)
Definition handleKeyDown (st : string) (event : Keyboard.event)
    : Action unit :=
  when ((Keyboard.metaKey event || Keyboard.ctrlKey event)
        && String.eqb (Keyboard.key event) "b")
    (preventDefault >>
     callSetOpen (negb (JS.startsWith st "expanded")) >>
     dispatchEvent
       {| type := "sidebar-left-toggled";
          detail_expanded := negb (JS.startsWith st "expanded") |}).

(** A [keydown] reaching [window]: the event arrives with its default not
    prevented, and the listener in place is the one registered by the
    latest render, since [state] is among the effect's dependencies. *)
Definition keydown (event : Keyboard.event) (w : World) : World :=
  exec (handleKeyDown (state (sidebar w)) event)
       {| sidebar := sidebar w;
          loadingThreadId := loadingThreadId w;
          dispatched := dispatched w;
          defaultPrevented := false |}.

(** The header's collapse button and the expand affordance. *)
Definition collapseButtonClick (isMobile : bool) : Action unit :=
  if isMobile then callSetOpenMobile false else callSetOpen false.

Definition expandButtonClick : Action unit := callSetOpen true.

(** The modifier test of [handleKeyDown], on either kind of event. *)
Definition keyboardModifier (event : Keyboard.event) : bool :=
  Keyboard.metaKey event || Keyboard.ctrlKey event.

Definition mouseModifier (e : Mouse.event) : bool :=
  Mouse.metaKey e || Mouse.ctrlKey e.

(** The key combination [handleKeyDown] acts on. *)
Definition isToggleShortcut (event : Keyboard.event) : Prop :=
  keyboardModifier event = true /\ Keyboard.key event = "b".

(** ** Sessions

    The discrete events the components react to, and the state after a
    sequence of them. *)
Inductive UIEvent : Type :=
| ThreadClick (isMobile : bool) (e : Mouse.event) (thread : Thread)
| KeyDown (event : Keyboard.event)
| RouteChange (isMobile : bool)
| CollapseClick (isMobile : bool)
| ExpandClick
| FloatingClick.

Definition step (w : World) (ev : UIEvent) : World :=
  match ev with
  | ThreadClick m e th =>
      exec (handleThreadClick m e (thread_id th) (thread_url th)) w
  | KeyDown event => keydown event w
  | RouteChange m => exec (routeEffect m) w
  | CollapseClick m => exec (collapseButtonClick m) w
  | ExpandClick => exec expandButtonClick w
  | FloatingClick => exec floatingButtonClick w
  end.

Definition run (evs : list UIEvent) (w : World) : World :=
  fold_left step evs w.

(** ** The [settings] migration

    Timestamps are microseconds since the epoch.  [NOW()] is the start
    time of the running transaction, so a statement takes it as an
    argument.  Statements are those of a role the policy
    ["Allow service_role full access"] lets through. *)

Module Settings.

Inductive jsonb : Type :=
| JNull
| JBool (b : bool)
| JNumber (z : Z)
| JString (s : string).

(** A stored row.  [value] is the one nullable column: [None] is SQL
    [NULL], [Some JNull] is the JSON document [null]. *)
Record Row : Type := {
  key : string;
  value : option jsonb;
  created_at : Z;
  updated_at : Z
}.

(** A row before the constraints are checked: any column may be [NULL]. *)
Record Tuple : Type := {
  t_key : option string;
  t_value : option jsonb;
  t_created_at : option Z;
  t_updated_at : option Z
}.

Inductive Column : Type := col_key | col_created_at | col_updated_at.

Inductive SqlError : Type :=
| not_null_violation (c : Column)
| unique_violation (k : string).

Inductive result (A : Type) : Type :=
| Ok (a : A)
| Err (e : SqlError).
Arguments Ok {A} a.
Arguments Err {A} e.

(** A table is the list of its rows; the primary key keeps their keys
    distinct. *)
Definition keys (tbl : list Row) : list string := map key tbl.

Definition has_key (k : string) (tbl : list Row) : bool :=
  existsb (String.eqb k) (keys tbl).

(** [key TEXT PRIMARY KEY NOT NULL], [created_at ... NOT NULL],
    [updated_at ... NOT NULL] *)
Definition check_not_null (t : Tuple) : result Row :=
  match t_key t with
  | None => Err (not_null_violation col_key)
  | Some k =>
      match t_created_at t with
      | None => Err (not_null_violation col_created_at)
      | Some c =>
          match t_updated_at t with
          | None => Err (not_null_violation col_updated_at)
          | Some u =>
              Ok {| key := k; value := t_value t;
                    created_at := c; updated_at := u |}
          end
      end
  end.

(** [set_updated_at_timestamp()]: [NEW.updated_at = NOW(); RETURN NEW;] *)
Definition set_updated_at_timestamp (now : Z) (NEW : Tuple) : Tuple :=
  {| t_key := t_key NEW;
     t_value := t_value NEW;
     t_created_at := t_created_at NEW;
     t_updated_at := Some now |}.

(** A column of an [INSERT]: left out (or [DEFAULT]), or given, possibly
    as [NULL]. *)
Inductive Supplied (A : Type) : Type :=
| DEFAULT
| VALUE (v : option A).
Arguments DEFAULT {A}.
Arguments VALUE {A} v.

Definition or_default {A : Type} (s : Supplied A) (d : option A)
    : option A :=
  match s with
  | DEFAULT => d
  | VALUE v => v
  end.

Record InsertRow : Type := {
  i_key : Supplied string;
  i_value : Supplied jsonb;
  i_created_at : Supplied Z;
  i_updated_at : Supplied Z
}.

(** The column defaults of [CREATE TABLE]: none for [key] and [value],
    [NOW()] for both timestamps. *)
Definition with_defaults (now : Z) (i : InsertRow) : Tuple :=
  {| t_key := or_default (i_key i) None;
     t_value := or_default (i_value i) None;
     t_created_at := or_default (i_created_at i) (Some now);
     t_updated_at := or_default (i_updated_at i) (Some now) |}.

(** [INSERT INTO settings ... VALUES ...]: the trigger is [BEFORE UPDATE]
    and does not fire; the first violation aborts the statement. *)
Fixpoint exec_insert (now : Z) (rows : list InsertRow) (tbl : list Row)
    : result (list Row) :=
  match rows with
  | [] => Ok tbl
  | i :: rest =>
      match check_not_null (with_defaults now i) with
      | Err e => Err e
      | Ok r =>
          if has_key (key r) tbl then Err (unique_violation (key r))
          else exec_insert now rest (tbl ++ [r])
      end
  end.

(** [INSERT INTO settings (key, value) VALUES (k, v)] *)
Definition key_value (k : string) (v : jsonb) : InsertRow :=
  {| i_key := VALUE (Some k);
     i_value := VALUE (Some v);
     i_created_at := DEFAULT;
     i_updated_at := DEFAULT |}.

(** One row of an [UPDATE]: the [SET] list computes the proposed row from
    the old one, the [BEFORE UPDATE ... FOR EACH ROW] trigger
    [handle_settings_updated_at] rewrites it, then the constraints are
    checked. *)
Definition update_row (now : Z) (set : Row -> Tuple) (OLD : Row)
    : result Row :=
  check_not_null (set_updated_at_timestamp now (set OLD)).

(** The rows are visited in order; [seen] holds those already visited.
    The new key of a row must differ from the key of every other row. *)
Fixpoint update_from (now : Z) (where_ : Row -> bool) (set : Row -> Tuple)
    (seen todo : list Row) : result (list Row) :=
  match todo with
  | [] => Ok seen
  | r :: rest =>
      if where_ r then
        match update_row now set r with
        | Err e => Err e
        | Ok r' =>
            if has_key (key r') (seen ++ rest)
            then Err (unique_violation (key r'))
            else update_from now where_ set (seen ++ [r']) rest
        end
      else update_from now where_ set (seen ++ [r]) rest
  end.

(** [UPDATE settings SET ... WHERE ...] *)
Definition exec_update (now : Z) (where_ : Row -> bool)
    (set : Row -> Tuple) (tbl : list Row) : result (list Row) :=
  update_from now where_ set [] tbl.

(** The row as it is, for the columns a [SET] list does not name. *)
Definition unchanged (r : Row) : Tuple :=
  {| t_key := Some (key r);
     t_value := value r;
     t_created_at := Some (created_at r);
     t_updated_at := Some (updated_at r) |}.

(** [UPDATE settings SET value = v] and, when [u] is given,
    [..., updated_at = u]; [Some None] is an explicit [NULL]. *)
Definition set_value (v : option jsonb) (u : option (option Z))
    (OLD : Row) : Tuple :=
  {| t_key := Some (key OLD);
     t_value := v;
     t_created_at := Some (created_at OLD);
     t_updated_at := match u with
                     | None => Some (updated_at OLD)
                     | Some x => x
                     end |}.

(** [WHERE key = k] *)
Definition key_is (k : string) (r : Row) : bool := String.eqb (key r) k.

(** The seed rows of the migration, inserted at [now] into the new
    table. *)
Definition seed_rows : list InsertRow :=
  [key_value "llm.openai_api_key" JNull;
   key_value "llm.anthropic_api_key" JNull;
   key_value "feature.new_tool_system_enabled" (JBool true)].

Definition migrate (now : Z) : result (list Row) :=
  exec_insert now seed_rows [].

(** The table right after the migration ran at [now]. *)
Definition seeded (now : Z) : list Row :=
  [{| key := "llm.openai_api_key"; value := Some JNull;
      created_at := now; updated_at := now |};
   {| key := "llm.anthropic_api_key"; value := Some JNull;
      created_at := now; updated_at := now |};
   {| key := "feature.new_tool_system_enabled"; value := Some (JBool true);
      created_at := now; updated_at := now |}].

End Settings.

(** ** More of [sidebar-left.tsx] and [nav-agents.tsx] *)

(** The test of [handleKeyDown] as one boolean. *)
Definition isToggleShortcutb (event : Keyboard.event) : bool :=
  (Keyboard.metaKey event || Keyboard.ctrlKey event)
  && String.eqb (Keyboard.key event) "b".

(** How many events of a session are shortcut keydowns. *)
Definition shortcutCount (evs : list UIEvent) : nat :=
  length (List.filter (fun ev => match ev with
                                 | KeyDown event => isToggleShortcutb event
                                 | _ => false
                                 end) evs).

(** The events whose handlers call [setOpen] without dispatching
    ["sidebar-left-toggled"]: the collapse button on a desktop viewport,
    the expand affordance and the floating button. *)
Definition writesOpenSilently (ev : UIEvent) : bool :=
  match ev with
  | CollapseClick isMobile => negb isMobile
  | ExpandClick | FloatingClick => true
  | _ => false
  end.

(** The latest broadcast, if any, carries the desktop flag. *)
Definition lastBroadcastAgrees (w : World) : Prop :=
  match dispatched w with
  | e :: _ => detail_expanded e = open (sidebar w)
  | [] => True
  end.

(** Whether a row draws the spinner, and the icon name it draws
    otherwise. *)
Definition rowSpinner (row : Element) : bool := mentions "Loader2" row.

Definition rowIconName (row : Element) : option string :=
  match row with
  | Elem _ _ [Elem _ _ [Elem _ _ (Elem _ _ [icon] :: _)]] =>
      attr "iconName" icon
  | _ => None
  end.

(** The [onClick] of the theme entry:
    [setTheme(theme === 'dark' ? 'light' : 'dark')]; [theme] is
    [undefined] until the theme provider has mounted. *)
Definition nextTheme (theme : option string) : string :=
  match theme with
  | Some th => if String.eqb th "dark" then "light" else "dark"
  | None => "dark"
  end.

(** The left part of the header: [state === 'collapsed' ? ... : ...].
    The classes that swap the logo for the expand affordance on hover are
    kept. *)
Definition headerLogo (st : string) : Element :=
  if String.eqb st "collapsed" then
    Elem "div" []
      [Elem "Link" [("href", "/dashboard")]
         [Elem "KortixLogo"
            [("className",
              "flex-shrink-0 opacity-100 group-hover/logo:opacity-0 transition-opacity")]
            []];
       Elem "Tooltip" []
         [Elem "TooltipTrigger" []
            [Elem "Button"
               [("className",
                 "h-8 w-8 absolute opacity-0 group-hover/logo:opacity-100 transition-opacity")]
               [Elem "PanelLeftOpen" [] []]];
          Elem "TooltipContent" [] [Text "Expand sidebar (CMD+B)"]]]
  else
    Elem "div" []
      [Elem "Link" [("href", "/dashboard")]
         [Elem "KortixLogo" [("className", "flex-shrink-0")] []]].

(** The logo link and the "New Chat" link: [isMobile && setOpenMobile(false)]. *)
Definition dashboardLinkClick (isMobile : bool) : Action unit :=
  when isMobile (callSetOpenMobile false).

Section SidebarLeft.

Variable t : string -> string.
Variable formatDateForList : string -> string.

(** What [SidebarLeft] returns, with [NavAgents] drawn in place. *)
Definition SidebarLeft (ctx : SidebarContext) (isMobile : bool)
    (loading pathname : option string) (q : Query ThreadsResponse)
    : Element :=
  Elem "Sidebar" [("collapsible", "icon")]
    [Elem "SidebarHeader" []
       [Elem "div" []
          [Elem "div" [] [headerLogo (state ctx)];
           Elem "Button" [] [Elem "PanelLeftClose" [] []]]];
     Elem "SidebarContent" []
       [Elem "div" []
          [Elem "div" []
             [Elem "div" []
                [Elem "Button" []
                   [Elem "Link" [("href", "/dashboard")]
                      [Elem "div" []
                         [Elem "Plus" [] []; Text "New Chat"]]]]];
           Elem "div" []
             [NavAgents t formatDateForList ctx isMobile loading pathname
                q]]];
     Elem "div" []
       [Elem "SidebarMenu" []
          [Elem "SidebarMenuButton" []
             [Elem "div" []
                [Elem "div" []
                   [Elem "Settings" [] [];
                    Elem "span" [] [Text "Settings"]]]];
           Elem "SidebarMenuSub" []
             [Elem "SidebarMenuSubItem" []
                [Elem "div" []
                   [Elem "span" [] [Text "Theme"];
                    Elem "div" []
                      [Elem "Sun" [] []; Text " / ";
                       Elem "Moon" [] []]]]]]];
     Elem "SidebarRail" [] []].

End SidebarLeft.

(** ** More statements on the [settings] table *)

Module SettingsOps.
Import Settings.

(** The row [INSERT INTO settings (key, value) VALUES (k, v)] stores at
    [now]. *)
Definition stored (now : Z) (kv : string * jsonb) : Row :=
  {| key := fst kv; value := Some (snd kv);
     created_at := now; updated_at := now |}.

(** [UPDATE settings SET key = k] *)
Definition set_key (k : option string) (OLD : Row) : Tuple :=
  {| t_key := k;
     t_value := value OLD;
     t_created_at := Some (created_at OLD);
     t_updated_at := Some (updated_at OLD) |}.

(** The row [UPDATE settings SET value = v WHERE ...] leaves at [now]. *)
Definition revalued (now : Z) (v : option jsonb) (r : Row) : Row :=
  {| key := key r; value := v;
     created_at := created_at r; updated_at := now |}.

(** No row was modified before it was created, nor after [now]. *)
Definition timestamps_ok (now : Z) (tbl : list Row) : Prop :=
  Forall (fun r => (created_at r <= updated_at r <= now)%Z) tbl.

End SettingsOps.

(** * Properties *)

(** ** Strings *)

Lemma startsWith_spec (s p : string) :
  JS.startsWith s p = true <-> exists rest, s = (p ++ rest)%string.
Proof.
  revert s. induction p as [|c p IH]; intros s; simpl.
  - split; [intros _; exists s; reflexivity | reflexivity].
  - destruct s as [|d s].
    + split; [discriminate | intros [rest H]; discriminate].
    + destruct (Ascii.eqb_spec c d) as [->|Hne].
      * rewrite IH. split; intros [rest H]; exists rest.
        -- now rewrite H.
        -- now injection H.
      * split; [discriminate|].
        intros [rest H]. injection H as H1 _. congruence.
Qed.

Lemma includes_spec (s p : string) :
  JS.includes s p = true <-> JS.substring_of p s.
Proof.
  unfold JS.substring_of. induction s as [|d s IH].
  - simpl. rewrite orb_false_r, startsWith_spec. split.
    + intros [rest H]. exists EmptyString, rest. exact H.
    + intros [pre [post H]]. destruct pre; [|discriminate].
      exists post. exact H.
  - cbn [JS.includes]. rewrite orb_true_iff, startsWith_spec, IH. split.
    + intros [[rest H]|[pre [post H]]].
      * exists EmptyString, rest. exact H.
      * exists (String d pre), post. simpl. now rewrite H.
    + intros [pre [post H]]. destruct pre as [|c pre].
      * left. exists post. exact H.
      * right. exists pre, post. simpl in H. now injection H.
Qed.

Lemma includes_self (s : string) : JS.includes s s = true.
Proof.
  apply includes_spec. exists EmptyString, EmptyString. simpl.
  induction s as [|c s IH]; simpl; [reflexivity | now rewrite <- IH].
Qed.

(** ** Active row *)

Section ActiveRow.

Variable formatDateForList : string -> string.


End ActiveRow.


(** The containment is loose: a path that merely embeds the id inside a
    longer segment marks the row. *)
Example active_inside_longer_segment :
  isActive (Some "/agents/abc123-copy") "abc123" = true
  /\ isActive (Some "/agents/abc12") "abc123" = false.
Proof. split; reflexivity. Qed.

(** ** The thread list *)

Section ThreadList.

Variable t : string -> string.
Variable formatDateForList : string -> string.

#[local] Abbreviation rows := (threadRows formatDateForList).
#[local] Abbreviation view := (threadList t formatDateForList).
#[local] Abbreviation region := (listRegion t formatDateForList).

Lemma rowHref_threadRows (loading pathname : option string)
    (ths : list Thread) :
  map rowHref (rows loading pathname ths)
  = map (fun th => Some ("/agents/" ++ thread_id th)%string) ths.
Proof.
  unfold threadRows. rewrite map_map. apply map_ext. reflexivity.
Qed.

Lemma length_threadRows (loading pathname : option string)
    (ths : list Thread) :
  length (rows loading pathname ths) = length ths.
Proof. unfold threadRows. apply length_map. Qed.

Lemma navIsLoading_true (q : Query ThreadsResponse) :
  navIsLoading q = true <-> isLoading q = true /\ threadsOf q = [].
Proof.
  unfold navIsLoading. rewrite andb_true_iff, Nat.eqb_eq.
  split; intros [H1 H2]; split; auto.
  - now apply length_zero_iff_nil.
  - now rewrite H2.
Qed.

Lemma threadList_loading (loading pathname : option string)
    (q : Query ThreadsResponse) :
  isLoading q = true -> threadsOf q = [] ->
  view loading pathname q = skeleton.
Proof.
  intros H1 H2. unfold threadList.
  now rewrite (proj2 (navIsLoading_true q) (conj H1 H2)).
Qed.

Lemma threadList_populated (loading pathname : option string)
    (q : Query ThreadsResponse) :
  threadsOf q <> [] ->
  view loading pathname q = Fragment (rows loading pathname (threadsOf q)).
Proof.
  intros H. unfold threadList.
  destruct (navIsLoading q) eqn:E.
  - apply navIsLoading_true in E. tauto.
  - destruct (threadsOf q); [congruence | reflexivity].
Qed.

Lemma threadList_empty (loading pathname : option string)
    (q : Query ThreadsResponse) :
  isLoading q = false -> threadsOf q = [] ->
  view loading pathname q = emptyMessage t.
Proof.
  intros H1 H2. unfold threadList, navIsLoading.
  now rewrite H1, H2.
Qed.

(** Each of the three views draws something. *)
Lemma drawn_threadList_nonempty (loading pathname : option string)
    (q : Query ThreadsResponse) :
  drawn (view loading pathname q) <> [].
Proof.
  unfold threadList. destruct (navIsLoading q); [discriminate|].
  destruct (threadsOf q) as [|th ths]; simpl; discriminate.
Qed.

Lemma listRegion_visible (st : string) (isMobile : bool)
    (loading pathname : option string) (q : Query ThreadsResponse) :
  negb (String.eqb st "collapsed") || isMobile = true ->
  region st isMobile loading pathname q
  = Fragment [view loading pathname q].
Proof. intros H. unfold listRegion. now rewrite H. Qed.

Lemma listRegion_hidden (st : string) (isMobile : bool)
    (loading pathname : option string) (q : Query ThreadsResponse) :
  negb (String.eqb st "collapsed") || isMobile = false ->
  region st isMobile loading pathname q = Null.
Proof. intros H. unfold listRegion. now rewrite H. Qed.

End ThreadList.

(** C5, as the code has it: when the sidebar is not collapsed or the
    viewport is mobile, the list region holds exactly one of three views,
    chosen by the loading flag and the thread count: the skeleton of 3
    placeholder rows while loading with no thread obtained; one row per
    thread, in the order of the data source, each linking to
    [/agents/{thread_id}], when there are threads; the localized empty
    message when loading is over and there are none.  The three views
    differ from each other. *)
Theorem thread_list_three_views :
  forall (t formatDateForList : string -> string) (st : string)
         (isMobile : bool) (loading pathname : option string)
         (q : Query ThreadsResponse),
    negb (String.eqb st "collapsed") || isMobile = true ->
    let view := threadList t formatDateForList loading pathname q in
    let rows := threadRows formatDateForList loading pathname (threadsOf q) in
    listRegion t formatDateForList st isMobile loading pathname q
      = Fragment [view]
    /\ ((isLoading q = true /\ threadsOf q = []
         /\ view = Elem "div" [] [skeletonRow 0; skeletonRow 1; skeletonRow 2])
        \/ (threadsOf q <> []
            /\ view = Fragment rows
            /\ length rows = length (threadsOf q)
            /\ map rowHref rows
                = map (fun th => Some ("/agents/" ++ thread_id th)%string)
                    (threadsOf q))
        \/ (isLoading q = false /\ threadsOf q = []
            /\ view = Elem "div" [] [Text (t "noConversations")]))
    /\ skeleton <> emptyMessage t
    /\ Fragment rows <> skeleton
    /\ Fragment rows <> emptyMessage t.
Proof.
  intros t fmt st isMobile loading pathname q Hvis view rows.
  split; [now apply listRegion_visible|].
  split; [|repeat split; discriminate].
  destruct (threadsOf q) as [|th ths] eqn:Eths.
  - destruct (isLoading q) eqn:El.
    + left. repeat split. subst view.
      now rewrite threadList_loading.
    + right; right. repeat split. subst view.
      now rewrite threadList_empty.
  - right; left. subst view rows. split; [discriminate|].
    rewrite <- Eths. split; [|split].
    + apply threadList_populated. congruence.
    + apply length_threadRows.
    + apply rowHref_threadRows.
Qed.

(** C5 as stated fails: with the sidebar collapsed on a desktop viewport
    and one thread loaded, the list region draws nothing, hence none of
    the three views. *)
Lemma thread_list_three_views_fails_when_collapsed :
  let t := fun s : string => s in
  let q := {| data := Some {| threads :=
                [{| thread_id := "t1"; name := "First";
                    updated_at := "2025-08-15"; iconName := None |}] |};
              isLoading := false; error := None |} in
  let shown := drawn (listRegion t t "collapsed" false None None q) in
  shown = []
  /\ shown <> drawn (skeleton)
  /\ shown <> drawn (Fragment (threadRows t None None (threadsOf q)))
  /\ shown <> drawn (emptyMessage t).
Proof. cbv. repeat split; discriminate. Qed.

Lemma thread_list_three_views_witness :
  let t := fun s : string => s in
  let q := {| data := Some {| threads :=
                [{| thread_id := "t1"; name := "First";
                    updated_at := "2025-08-15"; iconName := None |};
                 {| thread_id := "t2"; name := "Second";
                    updated_at := "2025-08-16"; iconName := Some "zap" |}] |};
              isLoading := false; error := None |} in
  map rowHref (threadRows t None (Some "/agents/t2") (threadsOf q))
  = [Some "/agents/t1"; Some "/agents/t2"].
Proof.
  intros t q.
  pose proof (thread_list_three_views t t "expanded" false None
                (Some "/agents/t2") q eq_refl) as H.
  cbv zeta in H.
  destruct H as [_ [[[_ [E _]]|[[_ [_ [_ H]]]|[_ [E _]]]] _]].
  - discriminate E.
  - exact H.
  - discriminate E.
Defined.

(** C10: on a viewport that is not mobile, with the sidebar collapsed,
    the list region is empty whatever the loading flag and the threads:
    the component draws its two wrappers with nothing inside, and this is
    none of the three views. *)
Theorem collapsed_desktop_renders_no_list :
  forall (t formatDateForList : string -> string) (ctx : SidebarContext)
         (loading pathname : option string) (q : Query ThreadsResponse),
    state ctx = "collapsed" ->
    listRegion t formatDateForList (state ctx) false loading pathname q
      = Null
    /\ drawn (NavAgents t formatDateForList ctx false loading pathname q)
       = [Elem "div" [] [Elem "div" [] []]]
    /\ drawn (listRegion t formatDateForList (state ctx) false loading
                pathname q)
       <> drawn (threadList t formatDateForList loading pathname q).
Proof.
  intros t fmt ctx loading pathname q Hst.
  assert (Hnull : listRegion t fmt (state ctx) false loading pathname q
                  = Null).
  { apply listRegion_hidden. now rewrite Hst. }
  split; [exact Hnull|]. split.
  - unfold NavAgents. rewrite Hnull. reflexivity.
  - rewrite Hnull. simpl. intros H. symmetry in H.
    now apply drawn_threadList_nonempty in H.
Qed.

Lemma collapsed_desktop_renders_no_list_witness :
  let t := fun s : string => s in
  drawn (NavAgents t t {| open := false; openMobile := false |} false
           (Some "t1") (Some "/agents/t1")
           {| data := Some {| threads :=
                [{| thread_id := "t1"; name := "First";
                    updated_at := "2025-08-15"; iconName := None |}] |};
              isLoading := true; error := None |})
  = [Elem "div" [] [Elem "div" [] []]].
Proof.
  intros t.
  exact (proj1 (proj2 (collapsed_desktop_renders_no_list t t
                         {| open := false; openMobile := false |}
                         (Some "t1") (Some "/agents/t1") _ eq_refl))).
Defined.

(** ** The layout shell *)

Lemma isApiHealthy_false (q : Query Health) :
  isApiHealthy q = false <-> unhealthy q.
Proof.
  unfold isApiHealthy, unhealthy.
  destruct (data q) as [h|]; destruct (error q) as [e|]; simpl.
  - rewrite andb_false_r. split; [right; discriminate | reflexivity].
  - rewrite andb_true_r. destruct (String.eqb_spec (status h) "ok") as [E|E].
    + rewrite E. split; [discriminate | intros [H|H]; congruence].
    + split; [left; congruence | reflexivity].
  - split; [left; discriminate | reflexivity].
  - split; [left; discriminate | reflexivity].
Qed.

Lemma applicationShell_has_sidebar (children : list Element) :
  mentions "SidebarLeft" (applicationShell children) = true.
Proof. reflexivity. Qed.

(** C2: the shell's output is determined by the health query.  While the
    check is in flight it is [Null].  Once it is over, the output is the
    maintenance page exactly when the status is not ["ok"] or an error is
    set, and that page has no sidebar in it; otherwise the output is the
    application shell, whose first child is the sidebar. *)
Theorem layout_shell_by_health :
  forall (children : list Element) (q : Query Health),
    (isLoading q = true -> DashboardLayoutContent children q = Null)
    /\ (isLoading q = false ->
        (DashboardLayoutContent children q = MaintenancePage
         <-> unhealthy q)
        /\ (unhealthy q ->
            mentions "SidebarLeft" (DashboardLayoutContent children q)
            = false)
        /\ (~ unhealthy q ->
            DashboardLayoutContent children q = applicationShell children
            /\ mentions "SidebarLeft" (DashboardLayoutContent children q)
               = true)).
Proof.
  intros children q. unfold DashboardLayoutContent. split.
  - intros ->. reflexivity.
  - intros ->. rewrite <- isApiHealthy_false.
    destruct (isApiHealthy q); simpl.
    + split; [split; discriminate|].
      split; [discriminate|]. intros _. split; reflexivity.
    + split; [split; reflexivity|].
      split; [reflexivity|]. intros H. now contradiction H.
Qed.

Lemma layout_shell_by_health_witness :
  DashboardLayoutContent [Text "page"]
    {| data := None; isLoading := true; error := None |} = Null
  /\ DashboardLayoutContent [Text "page"]
       {| data := Some {| status := "degraded" |};
          isLoading := false; error := None |} = MaintenancePage
  /\ DashboardLayoutContent [Text "page"]
       {| data := Some {| status := "ok" |};
          isLoading := false;
          error := Some {| message := "Network Error" |} |}
     = MaintenancePage
  /\ mentions "SidebarLeft"
       (DashboardLayoutContent [Text "page"]
          {| data := Some {| status := "ok" |};
             isLoading := false; error := None |}) = true.
Proof.
  pose (page := [Text "page"]).
  split; [|split; [|split]].
  - exact (proj1 (layout_shell_by_health page
             {| data := None; isLoading := true; error := None |})
             eq_refl).
  - apply (proj2 (layout_shell_by_health page
             {| data := Some {| status := "degraded" |};
                isLoading := false; error := None |}) eq_refl).
    left. discriminate.
  - apply (proj2 (layout_shell_by_health page
             {| data := Some {| status := "ok" |};
                isLoading := false;
                error := Some {| message := "Network Error" |} |})
             eq_refl).
    right. discriminate.
  - apply (proj2 (layout_shell_by_health page
             {| data := Some {| status := "ok" |};
                isLoading := false; error := None |}) eq_refl).
    intros [H|H]; now apply H.
Defined.

(** ** Clicks on thread rows *)

Lemma handleThreadClick_loading (isMobile : bool) (e : Mouse.event)
    (threadId url : string) (w : World) :
  loadingThreadId (exec (handleThreadClick isMobile e threadId url) w)
  = if Mouse.metaKey e then loadingThreadId w else Some threadId.
Proof.
  unfold handleThreadClick, exec, bind, when.
  destruct (Mouse.metaKey e), isMobile; reflexivity.
Qed.

Lemma handleThreadClick_sidebar (isMobile : bool) (e : Mouse.event)
    (threadId url : string) (w : World) :
  sidebar (exec (handleThreadClick isMobile e threadId url) w)
  = if isMobile then setOpenMobile false (sidebar w) else sidebar w.
Proof.
  unfold handleThreadClick, exec, bind, when.
  destruct (Mouse.metaKey e), isMobile; reflexivity.
Qed.

Lemma isThreadLoading_true (loading : option string) (id : string) :
  isThreadLoading loading id = true <-> loading = Some id.
Proof.
  destruct loading as [l|]; simpl.
  - rewrite String.eqb_eq. split; congruence.
  - split; discriminate.
Qed.

(** C1: a click with Ctrl held and Meta not held is a modified click for
    the modifier test of [handleKeyDown], yet [handleThreadClick], which
    reads [metaKey] alone, marks the clicked thread and drops the thread
    marked before. *)
Theorem ctrl_click_marks_loading_target :
  let e := {| Mouse.metaKey := false; Mouse.ctrlKey := true;
              Mouse.shiftKey := false; Mouse.altKey := false |} in
  let w := {| sidebar := {| open := true; openMobile := false |};
              loadingThreadId := Some "t1";
              dispatched := [];
              defaultPrevented := false |} in
  mouseModifier e = true
  /\ loadingThreadId (exec (handleThreadClick false e "t2" "/agents/t2") w)
     = Some "t2".
Proof. split; reflexivity. Qed.

(** C9: after any sequence of events, from any state, at most one thread
    id counts as the loading target; and a click that marks a thread
    (Meta not held) leaves that thread as the only target, whatever was
    marked before. *)
Theorem at_most_one_loading_target :
  forall (w : World) (evs : list UIEvent),
    (forall a b : string,
       isThreadLoading (loadingThreadId (run evs w)) a = true ->
       isThreadLoading (loadingThreadId (run evs w)) b = true ->
       a = b)
    /\ (forall (isMobile : bool) (e : Mouse.event) (thread : Thread),
          Mouse.metaKey e = false ->
          forall x : string,
            isThreadLoading
              (loadingThreadId
                 (run (evs ++ [ThreadClick isMobile e thread]) w)) x = true
            <-> x = thread_id thread).
Proof.
  intros w evs. split.
  - intros a b Ha Hb. apply isThreadLoading_true in Ha, Hb. congruence.
  - intros isMobile e thread He x. unfold run.
    rewrite fold_left_app. simpl.
    rewrite isThreadLoading_true, handleThreadClick_loading, He.
    split; congruence.
Qed.

Lemma at_most_one_loading_target_witness :
  let plain := {| Mouse.metaKey := false; Mouse.ctrlKey := false;
                  Mouse.shiftKey := false; Mouse.altKey := false |} in
  let th (id : string) := {| thread_id := id; name := id;
                             updated_at := ""; iconName := None |} in
  let w := {| sidebar := {| open := true; openMobile := false |};
              loadingThreadId := None;
              dispatched := [];
              defaultPrevented := false |} in
  Mouse.metaKey plain = false
  /\ isThreadLoading
       (loadingThreadId
          (run ([ThreadClick false plain (th "t1")]
                ++ [ThreadClick false plain (th "t2")]) w)) "t2" = true.
Proof.
  intros plain th w. split; [reflexivity|].
  apply (proj2 (at_most_one_loading_target w
                  [ThreadClick false plain (th "t1")])
               false plain (th "t2") eq_refl "t2").
  reflexivity.
Defined.

(** ** Route changes *)

Lemma Route_eqb_eq (r r' : Route) : Route_eqb r r' = true <-> r = r'.
Proof.
  unfold Route_eqb. destruct r as [p s], r' as [p' s']; simpl.
  rewrite andb_true_iff, String.eqb_eq.
  destruct p as [p|], p' as [p'|]; try rewrite String.eqb_eq.
  - split; [intros [-> ->]; reflexivity|].
    intros H. injection H as -> ->. split; reflexivity.
  - split; [intros [H _]; discriminate | discriminate].
  - split; [intros [H _]; discriminate | discriminate].
  - split; [intros [_ ->]; reflexivity|].
    intros H. injection H as ->. split; reflexivity.
Qed.

Lemma routeEffect_open (isMobile : bool) (w : World) :
  open (sidebar (exec (routeEffect isMobile) w)) = open (sidebar w).
Proof. destruct isMobile; reflexivity. Qed.

Lemma afterRender_open (prev : option (Route * bool)) (r : Route)
    (isMobile : bool) (w : World) :
  open (sidebar (exec (afterRender prev r isMobile) w)) = open (sidebar w).
Proof.
  unfold afterRender. destruct prev as [[r0 m0]|].
  - destruct (Route_eqb r0 r && Bool.eqb m0 isMobile).
    + reflexivity.
    + apply routeEffect_open.
  - apply routeEffect_open.
Qed.

(** C3: when a render follows a change of route (another pathname or
    another query string) and the viewport is mobile, the effect leaves
    the mobile overlay closed; and the effect, whether or not it runs, on
    any viewport, leaves the desktop flag as it was. *)
Theorem route_change_closes_mobile_overlay :
  forall (w : World) (r0 r : Route) (m0 : bool),
    (r0 <> r ->
     openMobile (sidebar (exec (afterRender (Some (r0, m0)) r true) w))
     = false)
    /\ (forall (prev : option (Route * bool)) (isMobile : bool),
          open (sidebar (exec (afterRender prev r isMobile) w))
          = open (sidebar w)).
Proof.
  intros w r0 r m0. split.
  - intros Hne. unfold afterRender.
    destruct (Route_eqb r0 r) eqn:E.
    + apply Route_eqb_eq in E. contradiction.
    + reflexivity.
  - intros prev isMobile. apply afterRender_open.
Qed.

Lemma route_change_closes_mobile_overlay_witness :
  let w := {| sidebar := {| open := true; openMobile := true |};
              loadingThreadId := None;
              dispatched := [];
              defaultPrevented := false |} in
  let r0 := {| pathname := Some "/dashboard"; searchParams := "" |} in
  let r := {| pathname := Some "/agents/t1"; searchParams := "" |} in
  r0 <> r
  /\ sidebar (exec (afterRender (Some (r0, true)) r true) w)
     = {| open := true; openMobile := false |}.
Proof.
  intros w r0 r.
  assert (Hne : r0 <> r) by discriminate.
  split; [exact Hne|].
  pose proof (route_change_closes_mobile_overlay w r0 r true) as [H1 H2].
  specialize (H1 Hne). specialize (H2 (Some (r0, true)) true).
  destruct (sidebar (exec (afterRender (Some (r0, true)) r true) w))
    as [o m]. simpl in H1, H2. now rewrite H1, H2.
Defined.

(** ** The keyboard shortcut *)

Lemma startsWith_state (c : SidebarContext) :
  JS.startsWith (state c) "expanded" = open c.
Proof. unfold state. destruct (open c); reflexivity. Qed.

Lemma keydown_toggle (event : Keyboard.event) (w : World) :
  isToggleShortcut event ->
  keydown event w
  = {| sidebar := setOpen (negb (open (sidebar w))) (sidebar w);
       loadingThreadId := loadingThreadId w;
       dispatched :=
         {| type := "sidebar-left-toggled";
            detail_expanded := negb (open (sidebar w)) |} :: dispatched w;
       defaultPrevented := true |}.
Proof.
  intros [Hm Hk]. unfold keydown, handleKeyDown.
  unfold keyboardModifier in Hm. rewrite Hm, Hk, startsWith_state.
  reflexivity.
Qed.

Lemma keydown_other (event : Keyboard.event) (w : World) :
  keyboardModifier event && String.eqb (Keyboard.key event) "b" = false ->
  sidebar (keydown event w) = sidebar w
  /\ dispatched (keydown event w) = dispatched w
  /\ defaultPrevented (keydown event w) = false.
Proof.
  intros H. unfold keydown, handleKeyDown.
  unfold keyboardModifier in H. rewrite H. repeat split.
Qed.

(** C7: a keydown of [b] with Meta or Ctrl held that reaches the
    listener has its default prevented, flips the desktop flag, and
    dispatches one ["sidebar-left-toggled"] event whose [expanded] is the
    flag after the flip; the mobile overlay flag is not touched. *)
Theorem shortcut_toggles_and_broadcasts :
  forall (event : Keyboard.event) (w : World),
    isToggleShortcut event ->
    let w' := keydown event w in
    defaultPrevented w' = true
    /\ open (sidebar w') = negb (open (sidebar w))
    /\ openMobile (sidebar w') = openMobile (sidebar w)
    /\ dispatched w'
       = {| type := "sidebar-left-toggled";
            detail_expanded := open (sidebar w') |} :: dispatched w.
Proof.
  intros event w H w'. subst w'. rewrite (keydown_toggle _ _ H).
  repeat split.
Qed.

Lemma shortcut_toggles_and_broadcasts_witness :
  let cmd_b := {| Keyboard.key := "b"; Keyboard.metaKey := true;
                  Keyboard.ctrlKey := false; Keyboard.shiftKey := false;
                  Keyboard.altKey := false |} in
  let w := {| sidebar := {| open := true; openMobile := false |};
              loadingThreadId := None;
              dispatched := [];
              defaultPrevented := false |} in
  isToggleShortcut cmd_b
  /\ dispatched (keydown cmd_b w)
     = [{| type := "sidebar-left-toggled"; detail_expanded := false |}].
Proof.
  intros cmd_b w.
  assert (H : isToggleShortcut cmd_b) by (split; reflexivity).
  split; [exact H|].
  exact (proj2 (proj2 (proj2 (shortcut_toggles_and_broadcasts cmd_b w H)))).
Defined.



(** ** The settings table *)

Module SettingsFacts.
Import Settings.

Lemma update_row_updated_at (now : Z) (set : Row -> Tuple) (OLD r' : Row) :
  update_row now set OLD = Ok r' -> updated_at r' = now.
Proof.
  unfold update_row, check_not_null, set_updated_at_timestamp. simpl.
  destruct (t_key (set OLD)); [|discriminate].
  destruct (t_created_at (set OLD)); [|discriminate].
  intros H. injection H as <-. reflexivity.
Qed.

Lemma update_row_set_value (now : Z) (v : option jsonb)
    (u : option (option Z)) (OLD : Row) :
  update_row now (set_value v u) OLD
  = Ok {| key := key OLD; value := v;
          created_at := created_at OLD; updated_at := now |}.
Proof. reflexivity. Qed.

(** What a successful [UPDATE] leaves: the rows already visited stay, and
    each remaining row is replaced in place by its updated version if it
    matches and kept otherwise. *)
Lemma update_from_spec (now : Z) (where_ : Row -> bool)
    (set : Row -> Tuple) (todo seen tbl' : list Row) :
  update_from now where_ set seen todo = Ok tbl' ->
  length tbl' = (length seen + length todo)%nat
  /\ (forall i r, seen !! i = Some r -> tbl' !! i = Some r)
  /\ (forall i r, todo !! i = Some r ->
        exists r', tbl' !! (length seen + i)%nat = Some r'
          /\ (if where_ r then update_row now set r = Ok r' else r' = r)).
Proof.
  revert seen. induction todo as [|r rest IH]; intros seen H; simpl in H.
  - injection H as <-. repeat split.
    + simpl. lia.
    + auto.
    + intros i r Hi. discriminate.
  - assert (Hstep : exists r',
               update_from now where_ set (seen ++ [r']) rest = Ok tbl'
               /\ (if where_ r then update_row now set r = Ok r'
                   else r' = r)).
    { destruct (where_ r).
      - destruct (update_row now set r) as [r'|e]; [|discriminate].
        destruct (has_key (key r') (seen ++ rest)); [discriminate|].
        exists r'. split; [exact H | reflexivity].
      - exists r. split; [exact H | reflexivity]. }
    destruct Hstep as [r' [Hrec Hr']].
    apply IH in Hrec. destruct Hrec as [Hlen [Hseen Htodo]].
    rewrite length_app in Hlen. simpl in Hlen.
    split; [simpl; lia|]. split.
    + intros i x Hi. apply Hseen. apply lookup_app_l_Some. exact Hi.
    + intros [|i] x Hi; simpl in Hi.
      * injection Hi as <-. exists r'. split; [|exact Hr'].
        apply Hseen. rewrite Nat.add_0_r.
        rewrite lookup_app_r by lia. now rewrite Nat.sub_diag.
      * destruct (Htodo i x Hi) as [x' [Hx' Hw]].
        exists x'. split; [|exact Hw].
        rewrite <- Hx'. f_equal. rewrite length_app. simpl. lia.
Qed.

(** Rows that do not match are passed over. *)
Lemma update_from_skip (now : Z) (where_ : Row -> bool)
    (set : Row -> Tuple) (pre rest seen : list Row) :
  forallb (fun r => negb (where_ r)) pre = true ->
  update_from now where_ set seen (pre ++ rest)
  = update_from now where_ set (seen ++ pre) rest.
Proof.
  revert seen. induction pre as [|r pre IH]; intros seen H; simpl.
  - now rewrite app_nil_r.
  - simpl in H. apply andb_true_iff in H as [Hr Hpre].
    apply negb_true_iff in Hr. rewrite Hr, IH by exact Hpre.
    now rewrite <- app_assoc.
Qed.

Lemma has_key_false_key_is (k : string) (tbl : list Row) :
  has_key k tbl = false ->
  forallb (fun r => negb (key_is k r)) tbl = true.
Proof.
  unfold has_key, keys, key_is. induction tbl as [|r tbl IH]; simpl.
  - reflexivity.
  - intros H. apply orb_false_iff in H as [H1 H2].
    rewrite String.eqb_sym, H1. simpl. now apply IH.
Qed.




Lemma migrate_seeded (now : Z) : migrate now = Ok (seeded now).
Proof. reflexivity. Qed.

(** A second insert of a seeded key is refused and changes nothing. *)
Example seeded_key_is_unique :
  exec_insert 7 [key_value "llm.openai_api_key" (JString "sk")] (seeded 0)
  = Err (unique_violation "llm.openai_api_key").
Proof. reflexivity. Qed.

End SettingsFacts.

(** * Further properties *)

(** ** Thread rows *)

Section Rows.

Variable formatDateForList : string -> string.

Lemma rowSpinner_ThreadItem (thread : Thread) (active loading : bool) :
  rowSpinner (ThreadItem formatDateForList thread active loading) = loading.
Proof. destruct loading; reflexivity. Qed.

Lemma spinner_rows_length (loading pathname : option string)
    (ths : list Thread) :
  length (List.filter rowSpinner
            (threadRows formatDateForList loading pathname ths))
  = length (List.filter
              (fun th => isThreadLoading loading (thread_id th)) ths).
Proof.
  unfold threadRows. induction ths as [|th ths IH]; simpl.
  - reflexivity.
  - rewrite rowSpinner_ThreadItem.
    destruct (isThreadLoading loading (thread_id th)); simpl; now rewrite IH.
Qed.

Lemma no_marked_thread (l : string) (ths : list Thread) :
  ~ In l (map thread_id ths) ->
  List.filter (fun th => isThreadLoading (Some l) (thread_id th)) ths = [].
Proof.
  induction ths as [|th ths IH]; simpl; intros H.
  - reflexivity.
  - destruct (String.eqb_spec l (thread_id th)) as [E|E].
    + exfalso. apply H. left. now symmetry.
    + apply IH. intros Hin. apply H. now right.
Qed.

End Rows.

(** X1: with distinct thread ids, the spinner is drawn on one row when
    the marked id is among the threads and on no row otherwise. *)
Theorem spinner_on_the_marked_row_only :
  forall (formatDateForList : string -> string)
         (loading pathname : option string) (ths : list Thread),
    List.NoDup (map thread_id ths) ->
    length (List.filter rowSpinner
              (threadRows formatDateForList loading pathname ths))
    = match loading with
      | Some l => if existsb (String.eqb l) (map thread_id ths)
                  then 1%nat else 0%nat
      | None => 0%nat
      end.
Proof.
  intros fmt loading pathname ths Hnd. rewrite spinner_rows_length.
  destruct loading as [l|].
  - induction ths as [|th ths IH]; [reflexivity|].
    simpl in Hnd. apply List.NoDup_cons_iff in Hnd as [Hnotin Hnd].
    simpl. destruct (String.eqb_spec l (thread_id th)) as [E|E].
    + subst l. pose proof (no_marked_thread _ ths Hnotin) as Hno.
      simpl in Hno |- *. now rewrite Hno.
    + now apply IH.
  - induction ths as [|th ths IH]; simpl; [reflexivity|].
    simpl in Hnd. apply List.NoDup_cons_iff in Hnd as [_ Hnd]. now apply IH.
Qed.

Lemma spinner_on_the_marked_row_only_witness :
  let th (id : string) := {| thread_id := id; name := id;
                             updated_at := ""; iconName := None |} in
  List.NoDup (map thread_id [th "t1"; th "t2"; th "t3"])
  /\ length (List.filter rowSpinner
               (threadRows (fun s => s) (Some "t2") None
                  [th "t1"; th "t2"; th "t3"])) = 1%nat.
Proof.
  intros th.
  assert (H : List.NoDup (map thread_id [th "t1"; th "t2"; th "t3"])).
  { simpl. repeat constructor; simpl; intuition discriminate. }
  split; [exact H|].
  exact (spinner_on_the_marked_row_only (fun s => s) (Some "t2") None
           [th "t1"; th "t2"; th "t3"] H).
Defined.

(** X2: a row that is not loading draws an icon whose name is never
    empty: the thread's own icon name when it has a non-empty one, and
    ["bot"] when the name is missing or empty; a loading row draws no
    icon. *)
Theorem row_icon_name_falls_back_to_bot :
  forall (formatDateForList : string -> string) (thread : Thread)
         (active : bool),
    rowIconName (ThreadItem formatDateForList thread active true) = None
    /\ exists n : string,
         rowIconName (ThreadItem formatDateForList thread active false)
         = Some n
         /\ n <> ""
         /\ (forall m : string,
               iconName thread = Some m -> m <> "" -> n = m)
         /\ (iconName thread = None \/ iconName thread = Some "" ->
             n = "bot").
Proof.
  intros fmt thread active. split; [reflexivity|].
  exists (JS.or_else (iconName thread) "bot").
  split; [reflexivity|]. unfold JS.or_else.
  destruct (iconName thread) as [[|c m]|]; simpl.
  - split; [discriminate|]. split; [|reflexivity].
    intros m H Hm. injection H as <-. now contradiction Hm.
  - split; [discriminate|]. split.
    + intros m' H _. now injection H.
    + intros [H|H]; discriminate.
  - split; [discriminate|]. split; [discriminate | reflexivity].
Qed.

(** ** Active rows *)


Lemma substring_of_refl (s : string) : JS.substring_of s s.
Proof. apply includes_spec, includes_self. Qed.






(** ** Sessions *)

Lemma isToggleShortcutb_true (event : Keyboard.event) :
  isToggleShortcutb event = true <-> isToggleShortcut event.
Proof.
  unfold isToggleShortcutb, isToggleShortcut, keyboardModifier.
  now rewrite andb_true_iff, String.eqb_eq.
Qed.

Lemma keydown_cases (event : Keyboard.event) (w : World) :
  keydown event w
  = if isToggleShortcutb event then
      {| sidebar := setOpen (negb (open (sidebar w))) (sidebar w);
         loadingThreadId := loadingThreadId w;
         dispatched :=
           {| type := "sidebar-left-toggled";
              detail_expanded := negb (open (sidebar w)) |}
           :: dispatched w;
         defaultPrevented := true |}
    else
      {| sidebar := sidebar w;
         loadingThreadId := loadingThreadId w;
         dispatched := dispatched w;
         defaultPrevented := false |}.
Proof.
  destruct (isToggleShortcutb event) eqn:E.
  - apply keydown_toggle. now apply isToggleShortcutb_true.
  - unfold keydown, handleKeyDown. unfold isToggleShortcutb in E.
    now rewrite E.
Qed.

Lemma step_loadingThreadId (w : World) (ev : UIEvent) :
  loadingThreadId (step w ev)
  = match ev with
    | ThreadClick _ e th =>
        if Mouse.metaKey e then loadingThreadId w else Some (thread_id th)
    | _ => loadingThreadId w
    end.
Proof.
  destruct ev as [m e th|event|m|m| |]; simpl.
  - apply handleThreadClick_loading.
  - rewrite keydown_cases. now destruct (isToggleShortcutb event).
  - now destruct m.
  - now destruct m.
  - reflexivity.
  - reflexivity.
Qed.

Lemma step_dispatched (w : World) (ev : UIEvent) :
  dispatched (step w ev)
  = match ev with
    | KeyDown event =>
        if isToggleShortcutb event
        then {| type := "sidebar-left-toggled";
                detail_expanded := negb (open (sidebar w)) |}
             :: dispatched w
        else dispatched w
    | _ => dispatched w
    end.
Proof.
  destruct ev as [m e th|event|m|m| |]; simpl.
  - unfold handleThreadClick, exec, bind, when.
    now destruct (Mouse.metaKey e), m.
  - rewrite keydown_cases. now destruct (isToggleShortcutb event).
  - now destruct m.
  - now destruct m.
  - reflexivity.
  - reflexivity.
Qed.

Lemma step_sidebar (w : World) (ev : UIEvent) :
  sidebar (step w ev)
  = match ev with
    | ThreadClick m _ _ | RouteChange m =>
        if m then setOpenMobile false (sidebar w) else sidebar w
    | KeyDown event =>
        if isToggleShortcutb event
        then setOpen (negb (open (sidebar w))) (sidebar w)
        else sidebar w
    | CollapseClick m =>
        if m then setOpenMobile false (sidebar w)
        else setOpen false (sidebar w)
    | ExpandClick => setOpen true (sidebar w)
    | FloatingClick => setOpenMobile true (setOpen true (sidebar w))
    end.
Proof.
  destruct ev as [m e th|event|m|m| |]; simpl.
  - apply handleThreadClick_sidebar.
  - rewrite keydown_cases. now destruct (isToggleShortcutb event).
  - now destruct m.
  - now destruct m.
  - reflexivity.
  - reflexivity.
Qed.

(** X5: a click on a thread row, with or without a modifier, closes the
    mobile overlay when the viewport is mobile and leaves it alone
    otherwise; it never writes the desktop flag, never prevents the
    link's default navigation and never broadcasts. *)
Theorem thread_click_closes_overlay_only :
  forall (isMobile : bool) (e : Mouse.event) (threadId url : string)
         (w : World),
    let w' := exec (handleThreadClick isMobile e threadId url) w in
    openMobile (sidebar w')
    = (if isMobile then false else openMobile (sidebar w))
    /\ open (sidebar w') = open (sidebar w)
    /\ defaultPrevented w' = defaultPrevented w
    /\ dispatched w' = dispatched w.
Proof.
  intros isMobile e threadId url w w'. subst w'.
  unfold handleThreadClick, exec, bind, when.
  destruct (Mouse.metaKey e), isMobile; repeat split.
Qed.

(** X6: no event clears the loading marker.  After a session the marker
    is the one the session started with, or the id of a thread clicked
    without Meta during the session; once some thread is marked, some
    thread stays marked. *)
Theorem loading_marker_is_never_cleared :
  forall (evs : list UIEvent) (w : World),
    (loadingThreadId (run evs w) = loadingThreadId w
     \/ exists (m : bool) (e : Mouse.event) (th : Thread),
          In (ThreadClick m e th) evs
          /\ Mouse.metaKey e = false
          /\ loadingThreadId (run evs w) = Some (thread_id th))
    /\ (loadingThreadId w <> None -> loadingThreadId (run evs w) <> None).
Proof.
  assert (Hfirst : forall evs w,
    loadingThreadId (run evs w) = loadingThreadId w
    \/ exists m e th, In (ThreadClick m e th) evs
         /\ Mouse.metaKey e = false
         /\ loadingThreadId (run evs w) = Some (thread_id th)).
  { induction evs as [|ev evs IH]; intros w.
    - left. reflexivity.
    - change (run (ev :: evs) w) with (run evs (step w ev)).
      destruct (IH (step w ev)) as [H|[m [e [th [Hin [He H]]]]]].
      + rewrite H, step_loadingThreadId.
        destruct ev as [m e th|event|m|m| |]; try (left; reflexivity).
        destruct (Mouse.metaKey e) eqn:He; [left; reflexivity|].
        right. exists m, e, th.
        split; [now left | split; [exact He | reflexivity]].
      + right. exists m, e, th.
        split; [now right | split; [exact He | exact H]]. }
  intros evs w. split; [apply Hfirst|].
  intros Hw. destruct (Hfirst evs w) as [H|[m [e [th [_ [_ H]]]]]];
    rewrite H; [exact Hw | discriminate].
Qed.

Lemma loading_marker_is_never_cleared_witness :
  let w := {| sidebar := {| open := true; openMobile := false |};
              loadingThreadId := Some "t1";
              dispatched := [];
              defaultPrevented := false |} in
  let cmd_b := {| Keyboard.key := "b"; Keyboard.metaKey := true;
                  Keyboard.ctrlKey := false; Keyboard.shiftKey := false;
                  Keyboard.altKey := false |} in
  loadingThreadId w <> None
  /\ loadingThreadId
       (run [RouteChange true; KeyDown cmd_b; CollapseClick false] w)
     <> None.
Proof.
  intros w cmd_b.
  assert (H : loadingThreadId w <> None) by discriminate.
  split; [exact H|].
  exact (proj2 (loading_marker_is_never_cleared
                  [RouteChange true; KeyDown cmd_b; CollapseClick false] w)
               H).
Defined.

(** X7: a keydown that is not Meta-or-Ctrl with the key exactly ["b"]
    changes nothing: the sidebar and the marker stay, nothing is
    broadcast and the browser's default is not prevented. *)
Theorem other_keys_are_ignored :
  forall (event : Keyboard.event) (w : World),
    ~ isToggleShortcut event ->
    sidebar (keydown event w) = sidebar w
    /\ loadingThreadId (keydown event w) = loadingThreadId w
    /\ dispatched (keydown event w) = dispatched w
    /\ defaultPrevented (keydown event w) = false.
Proof.
  intros event w H. rewrite keydown_cases.
  destruct (isToggleShortcutb event) eqn:E.
  - apply isToggleShortcutb_true in E. contradiction.
  - repeat split.
Qed.

Lemma other_keys_are_ignored_witness :
  let cmd_shift_b := {| Keyboard.key := "B"; Keyboard.metaKey := true;
                        Keyboard.ctrlKey := false;
                        Keyboard.shiftKey := true;
                        Keyboard.altKey := false |} in
  let w := {| sidebar := {| open := true; openMobile := false |};
              loadingThreadId := None;
              dispatched := [];
              defaultPrevented := false |} in
  ~ isToggleShortcut cmd_shift_b
  /\ sidebar (keydown cmd_shift_b w) = sidebar w.
Proof.
  intros cmd_shift_b w.
  assert (H : ~ isToggleShortcut cmd_shift_b)
    by (intros [_ H]; discriminate H).
  split; [exact H|].
  exact (proj1 (other_keys_are_ignored cmd_shift_b w H)).
Defined.

(** X8: over a session, the broadcasts added are one per shortcut
    keydown, all of type ["sidebar-left-toggled"]; clicks on the collapse
    button, the expand affordance and the floating button, which also
    write the desktop flag, add none. *)
Theorem one_broadcast_per_shortcut :
  forall (evs : list UIEvent) (w : World),
    exists news : list CustomEvent,
      dispatched (run evs w) = news ++ dispatched w
      /\ length news = shortcutCount evs
      /\ Forall (fun e => type e = "sidebar-left-toggled") news.
Proof.
  induction evs as [|ev evs IH]; intros w.
  - exists []. repeat split. constructor.
  - change (run (ev :: evs) w) with (run evs (step w ev)).
    destruct (IH (step w ev)) as [news [Hd [Hlen Hty]]].
    rewrite step_dispatched in Hd.
    unfold shortcutCount in *. cbn [List.filter].
    destruct (match ev with
              | KeyDown event => isToggleShortcutb event
              | _ => false
              end) eqn:E.
    + destruct ev as [m e th|event|m|m| |]; try discriminate.
      rewrite E in Hd.
      exists (news ++ [{| type := "sidebar-left-toggled";
                          detail_expanded := negb (open (sidebar w)) |}]).
      split; [|split].
      * rewrite Hd, <- app_assoc. reflexivity.
      * rewrite length_app. simpl. lia.
      * apply Forall_app. split; [exact Hty|]. now repeat constructor.
    + exists news. split; [|split; [exact Hlen | exact Hty]].
      destruct ev as [m e th|event|m|m| |]; try exact Hd.
      rewrite E in Hd. exact Hd.
Qed.

(** X9: as long as no event of the session writes the desktop flag
    without broadcasting (the collapse button on desktop, the expand
    affordance, the floating button), the latest broadcast keeps carrying
    the desktop flag. *)
Theorem last_broadcast_agrees_without_silent_writes :
  forall (evs : list UIEvent) (w : World),
    forallb (fun ev => negb (writesOpenSilently ev)) evs = true ->
    lastBroadcastAgrees w ->
    lastBroadcastAgrees (run evs w).
Proof.
  induction evs as [|ev evs IH]; intros w Hall Hw; [exact Hw|].
  simpl in Hall. apply andb_true_iff in Hall as [Hev Hall].
  change (run (ev :: evs) w) with (run evs (step w ev)).
  apply IH; [exact Hall|].
  unfold lastBroadcastAgrees in *.
  rewrite step_dispatched, step_sidebar.
  destruct ev as [m e th|event|m|m| |]; simpl in Hev; try discriminate.
  - destruct m; exact Hw.
  - destruct (isToggleShortcutb event); [reflexivity | exact Hw].
  - destruct m; exact Hw.
  - destruct m; [exact Hw | discriminate].
Qed.

Lemma last_broadcast_agrees_without_silent_writes_witness :
  let w := {| sidebar := {| open := true; openMobile := true |};
              loadingThreadId := None;
              dispatched := [];
              defaultPrevented := false |} in
  let ctrl_b := {| Keyboard.key := "b"; Keyboard.metaKey := false;
                   Keyboard.ctrlKey := true; Keyboard.shiftKey := false;
                   Keyboard.altKey := false |} in
  lastBroadcastAgrees w
  /\ lastBroadcastAgrees
       (run [KeyDown ctrl_b; RouteChange true; KeyDown ctrl_b;
             CollapseClick true; KeyDown ctrl_b] w).
Proof.
  intros w ctrl_b.
  assert (H : lastBroadcastAgrees w) by exact I.
  split; [exact H|].
  exact (last_broadcast_agrees_without_silent_writes
           [KeyDown ctrl_b; RouteChange true; KeyDown ctrl_b;
            CollapseClick true; KeyDown ctrl_b] w eq_refl H).
Defined.

(** X10: only the floating button opens the mobile overlay: if the
    overlay is open after a session without a click on it, it was open
    before. *)
Theorem only_the_floating_button_opens_the_overlay :
  forall (evs : list UIEvent) (w : World),
    forallb (fun ev => match ev with FloatingClick => false | _ => true end)
      evs = true ->
    openMobile (sidebar (run evs w)) = true ->
    openMobile (sidebar w) = true.
Proof.
  induction evs as [|ev evs IH]; intros w Hall Hopen; [exact Hopen|].
  simpl in Hall. apply andb_true_iff in Hall as [Hev Hall].
  change (run (ev :: evs) w) with (run evs (step w ev)) in Hopen.
  apply IH in Hopen; [|exact Hall].
  rewrite step_sidebar in Hopen.
  destruct ev as [m e th|event|m|m| |]; try discriminate;
    try (destruct m; [discriminate | exact Hopen]).
  - destruct (isToggleShortcutb event); exact Hopen.
  - exact Hopen.
Qed.

Lemma only_the_floating_button_opens_the_overlay_witness :
  let w := {| sidebar := {| open := false; openMobile := true |};
              loadingThreadId := None;
              dispatched := [];
              defaultPrevented := false |} in
  openMobile (sidebar (run [ExpandClick; RouteChange false] w)) = true
  /\ openMobile (sidebar w) = true.
Proof.
  intros w.
  assert (H : openMobile (sidebar (run [ExpandClick; RouteChange false] w))
              = true) by reflexivity.
  split; [exact H|].
  exact (only_the_floating_button_opens_the_overlay
           [ExpandClick; RouteChange false] w eq_refl H).
Defined.

(** ** Buttons of the sidebar *)

Lemma FloatingMobileMenuButton_drawn (ctx : SidebarContext)
    (isMobile : bool) :
  drawn (FloatingMobileMenuButton ctx isMobile) = []
  <-> isMobile = false \/ openMobile ctx = true.
Proof.
  unfold FloatingMobileMenuButton.
  destruct isMobile, (openMobile ctx); simpl; split; intros H;
    try reflexivity; try discriminate; auto.
  destruct H; discriminate.
Qed.

(** X11: the floating button is drawn exactly on a mobile viewport with
    the overlay closed.  Hence it is drawn after every route change on
    mobile, and a click on it hides it, on any viewport, and leaves the
    sidebar expanded with the overlay open. *)
Theorem floating_button_reopens_the_overlay :
  forall (w : World),
    (forall (ctx : SidebarContext) (isMobile : bool),
       drawn (FloatingMobileMenuButton ctx isMobile) = []
       <-> isMobile = false \/ openMobile ctx = true)
    /\ drawn (FloatingMobileMenuButton
               (sidebar (exec (routeEffect true) w)) true) <> []
    /\ (forall isMobile : bool,
          drawn (FloatingMobileMenuButton
                   (sidebar (exec floatingButtonClick w)) isMobile) = [])
    /\ sidebar (exec floatingButtonClick w)
       = {| open := true; openMobile := true |}.
Proof.
  intros w. split; [apply FloatingMobileMenuButton_drawn|].
  split; [|split].
  - rewrite FloatingMobileMenuButton_drawn. simpl.
    intros [H|H]; discriminate.
  - intros isMobile. apply FloatingMobileMenuButton_drawn. now right.
  - reflexivity.
Qed.

Section Affordance.

Variable t : string -> string.
Variable formatDateForList : string -> string.

Lemma threadRows_no_affordance (loading pathname : option string)
    (ths : list Thread) :
  existsb (mentions "PanelLeftOpen")
    (threadRows formatDateForList loading pathname ths) = false.
Proof.
  unfold threadRows. induction ths as [|th ths IH]; [reflexivity|].
  cbn [map existsb]. rewrite IH, orb_false_r.
  destruct (isThreadLoading loading (thread_id th)); reflexivity.
Qed.

Lemma NavAgents_no_affordance (ctx : SidebarContext) (isMobile : bool)
    (loading pathname : option string) (q : Query ThreadsResponse) :
  mentions "PanelLeftOpen"
    (NavAgents t formatDateForList ctx isMobile loading pathname q) = false.
Proof.
  unfold NavAgents, listRegion, threadList.
  destruct (negb (String.eqb (state ctx) "collapsed") || isMobile);
    [|reflexivity].
  destruct (navIsLoading q); [reflexivity|].
  destruct (0 <? length (threadsOf q))%nat; [|reflexivity].
  cbn [mentions existsb String.eqb Ascii.eqb Bool.eqb orb].
  now rewrite threadRows_no_affordance.
Qed.

End Affordance.

(** X12: the sidebar holds the expand affordance exactly when it is
    collapsed, whatever the threads; a click on it expands the sidebar,
    after which the affordance is gone. *)
Theorem expand_affordance_iff_collapsed :
  forall (t formatDateForList : string -> string) (w : World)
         (isMobile : bool) (loading pathname : option string)
         (q : Query ThreadsResponse),
    mentions "PanelLeftOpen"
      (SidebarLeft t formatDateForList (sidebar w) isMobile loading
         pathname q)
    = negb (open (sidebar w))
    /\ mentions "PanelLeftOpen"
         (SidebarLeft t formatDateForList
            (sidebar (exec expandButtonClick w)) isMobile loading
            pathname q)
       = false.
Proof.
  assert (H : forall t fmt ctx isMobile loading pathname q,
    mentions "PanelLeftOpen"
      (SidebarLeft t fmt ctx isMobile loading pathname q)
    = negb (open ctx)).
  { intros t fmt ctx isMobile loading pathname q. unfold SidebarLeft.
    pose proof (NavAgents_no_affordance t fmt ctx isMobile loading
                  pathname q) as Hnav.
    remember (NavAgents t fmt ctx isMobile loading pathname q) as nav.
    clear Heqnav.
    unfold state. destruct (open ctx); cbn; try rewrite Hnav; reflexivity. }
  intros t fmt w isMobile loading pathname q. split; [apply H|].
  rewrite H. reflexivity.
Qed.

(** X13: the thread list follows the buttons: after the collapse button
    on a desktop viewport nothing of it is drawn; after the expand
    affordance or the floating button it is drawn on any viewport; the
    collapse button on a mobile viewport closes the overlay and leaves
    the desktop flag. *)
Theorem thread_list_follows_the_buttons :
  forall (t formatDateForList : string -> string) (w : World)
         (loading pathname : option string) (q : Query ThreadsResponse),
    drawn (listRegion t formatDateForList
             (state (sidebar (exec (collapseButtonClick false) w)))
             false loading pathname q) = []
    /\ (forall isMobile : bool,
          drawn (listRegion t formatDateForList
                   (state (sidebar (exec expandButtonClick w)))
                   isMobile loading pathname q) <> []
          /\ drawn (listRegion t formatDateForList
                      (state (sidebar (exec floatingButtonClick w)))
                      isMobile loading pathname q) <> [])
    /\ sidebar (exec (collapseButtonClick true) w)
       = {| open := open (sidebar w); openMobile := false |}.
Proof.
  intros t fmt w loading pathname q. split; [reflexivity|].
  split; [|reflexivity].
  intros isMobile.
  assert (H : forall st, st = "expanded" ->
            drawn (listRegion t fmt st isMobile loading pathname q) <> []).
  { intros st ->. rewrite listRegion_visible by reflexivity.
    simpl. rewrite app_nil_r. apply drawn_threadList_nonempty. }
  split; apply H; reflexivity.
Qed.

(** ** Theme, errors, loading *)

(** X14: the theme entry always sets ["light"] or ["dark"]; clicking it
    twice restores the theme exactly when the theme was one of these two
    (from ["system"], or before the theme is known, two clicks end on
    ["light"]). *)
Theorem theme_toggle_alternates :
  forall theme : option string,
    (nextTheme theme = "light" \/ nextTheme theme = "dark")
    /\ (Some (nextTheme (Some (nextTheme theme))) = theme
        <-> theme = Some "dark" \/ theme = Some "light")
    /\ nextTheme (Some (nextTheme (Some (nextTheme theme))))
       = nextTheme theme.
Proof.
  intros [th|]; unfold nextTheme.
  - destruct (String.eqb_spec th "dark") as [->|Hd]; simpl.
    + split; [now left|]. split; [|reflexivity].
      split; [now left | reflexivity].
    + split; [now right|]. split; [|reflexivity]. split.
      * intros H. right. now rewrite <- H.
      * intros [H|H]; [congruence | exact (eq_sym H)].
  - simpl. split; [now right|]. split; [|reflexivity].
    split; [discriminate | intros [H|H]; discriminate].
Qed.

(** X15: the thread list does not look at the error of the query: a
    failed fetch draws what a fetch without error draws, which is the
    empty message when there is no data and loading is over. *)
Theorem thread_fetch_errors_are_not_shown :
  forall (t formatDateForList : string -> string) (ctx : SidebarContext)
         (isMobile : bool) (loading pathname : option string)
         (d : option ThreadsResponse) (l : bool) (e : option Error),
    NavAgents t formatDateForList ctx isMobile loading pathname
      {| data := d; isLoading := l; error := e |}
    = NavAgents t formatDateForList ctx isMobile loading pathname
        {| data := d; isLoading := l; error := None |}
    /\ threadList t formatDateForList loading pathname
         {| data := None; isLoading := false; error := e |}
       = emptyMessage t.
Proof. intros. split; reflexivity. Qed.

(** X16: the layout shell draws nothing exactly while the health check is
    in flight. *)
Theorem layout_draws_nothing_iff_checking :
  forall (children : list Element) (q : Query Health),
    drawn (DashboardLayoutContent children q) = [] <-> isLoading q = true.
Proof.
  intros children q. unfold DashboardLayoutContent.
  destruct (isLoading q).
  - split; reflexivity.
  - destruct (isApiHealthy q); simpl; split; discriminate.
Qed.

(** ** The primary key and the timestamps of [settings] *)

Module SettingsMore.
Import Settings SettingsOps SettingsFacts.

Lemma has_key_In (k : string) (tbl : list Row) :
  has_key k tbl = true <-> In k (keys tbl).
Proof.
  unfold has_key. rewrite existsb_exists. split.
  - intros [x [Hin Hx]]. apply String.eqb_eq in Hx. now subst.
  - intros H. exists k. split; [exact H | apply String.eqb_refl].
Qed.

Lemma has_key_false (k : string) (tbl : list Row) :
  has_key k tbl = false <-> ~ In k (keys tbl).
Proof.
  rewrite <- has_key_In. destruct (has_key k tbl); split; intros H;
    try reflexivity; try discriminate; try (intros H'; discriminate).
  exfalso. now apply H.
Qed.

Lemma has_key_app (k : string) (a b : list Row) :
  has_key k (a ++ b) = has_key k a || has_key k b.
Proof. unfold has_key, keys. now rewrite map_app, existsb_app. Qed.

Lemma has_key_snoc (k : string) (tbl : list Row) (r : Row) :
  has_key k (tbl ++ [r]) = has_key k tbl || String.eqb k (key r).
Proof.
  rewrite has_key_app. unfold has_key at 2. cbn [keys map existsb].
  now rewrite orb_false_r.
Qed.

Lemma keys_app (a b : list Row) : keys (a ++ b) = keys a ++ keys b.
Proof. apply map_app. Qed.

Lemma NoDup_keys_snoc (tbl : list Row) (r : Row) :
  List.NoDup (keys tbl) -> has_key (key r) tbl = false ->
  List.NoDup (keys (tbl ++ [r])).
Proof.
  intros Hnd Hfresh. apply has_key_false in Hfresh.
  rewrite keys_app. simpl.
  apply (Permutation.Permutation_NoDup
           (Permutation.Permutation_middle (keys tbl) [] (key r))).
  rewrite app_nil_r. now constructor.
Qed.

Lemma NoDup_keys_middle (pre post : list Row) (r : Row) :
  List.NoDup (keys (pre ++ r :: post)) ->
  List.NoDup (keys (pre ++ post)) /\ has_key (key r) (pre ++ post) = false.
Proof.
  rewrite !keys_app. simpl. intros H.
  apply List.NoDup_remove in H as [H1 H2]. split; [exact H1|].
  apply has_key_false. now rewrite keys_app.
Qed.

Lemma NoDup_keys_replace (pre post : list Row) (r r' : Row) :
  List.NoDup (keys (pre ++ post)) ->
  has_key (key r') (pre ++ post) = false ->
  List.NoDup (keys ((pre ++ [r']) ++ post)).
Proof.
  intros Hnd Hfresh. apply has_key_false in Hfresh.
  rewrite <- app_assoc. simpl. rewrite keys_app in *. simpl.
  apply (Permutation.Permutation_NoDup
           (Permutation.Permutation_middle (keys pre) (keys post) (key r'))).
  now constructor.
Qed.

(** X17: an [INSERT] of (key, value) pairs succeeds exactly when the keys
    are distinct and none is in the table; it then appends the rows in
    order, each stamped with the current time in both timestamps. *)
Theorem insert_succeeds_iff_keys_fresh :
  forall (now : Z) (kvs : list (string * jsonb)) (tbl tbl' : list Row),
    exec_insert now (map (fun kv => key_value (fst kv) (snd kv)) kvs) tbl
    = Ok tbl'
    <-> tbl' = tbl ++ map (stored now) kvs
        /\ List.NoDup (map fst kvs)
        /\ (forall k, In k (map fst kvs) -> has_key k tbl = false).
Proof.
  intros now kvs. induction kvs as [|[k v] kvs IH]; intros tbl tbl'.
  - simpl. rewrite app_nil_r. split.
    + intros H. injection H as <-. repeat split; [constructor | tauto].
    + intros [-> _]. reflexivity.
  - cbn [map exec_insert fst snd].
    change (check_not_null (with_defaults now (key_value k v)))
      with (Ok (stored now (k, v))).
    cbv iota. change (key (stored now (k, v))) with k.
    destruct (has_key k tbl) eqn:Hk; cbv iota.
    + split; [discriminate|]. intros [_ [_ H]].
      rewrite (H k) in Hk; [discriminate | now left].
    + rewrite IH, <- app_assoc. cbn [app].
      split; intros [Htbl [Hnd Hfresh]]; (split; [exact Htbl|]).
      * split.
        -- constructor; [|exact Hnd]. intros Hin.
           specialize (Hfresh k Hin). rewrite has_key_snoc in Hfresh.
           change (key (stored now (k, v))) with k in Hfresh.
           rewrite String.eqb_refl, orb_true_r in Hfresh. discriminate.
        -- intros k' [<-|Hin]; [exact Hk|].
           specialize (Hfresh k' Hin). rewrite has_key_snoc in Hfresh.
           now apply orb_false_iff in Hfresh.
      * apply List.NoDup_cons_iff in Hnd as [Hnotin Hnd].
        split; [exact Hnd|]. intros k' Hin. rewrite has_key_snoc.
        rewrite (Hfresh k') by now right.
        change (key (stored now (k, v))) with k. simpl.
        apply String.eqb_neq. intros ->. contradiction.
Qed.

(** X18: any [INSERT] that succeeds on a table with distinct keys leaves
    the keys distinct, keeps the old rows in place and adds one row per
    inserted tuple. *)
Theorem insert_keeps_keys_distinct :
  forall (now : Z) (rows : list InsertRow) (tbl tbl' : list Row),
    List.NoDup (keys tbl) ->
    exec_insert now rows tbl = Ok tbl' ->
    List.NoDup (keys tbl')
    /\ exists new, tbl' = tbl ++ new /\ length new = length rows.
Proof.
  intros now rows. induction rows as [|i rows IH]; intros tbl tbl' Hnd H.
  - simpl in H. injection H as <-. split; [exact Hnd|].
    exists []. now rewrite app_nil_r.
  - simpl in H.
    destruct (check_not_null (with_defaults now i)) as [r|e];
      [|discriminate].
    destruct (has_key (key r) tbl) eqn:Hk; [discriminate|].
    apply IH in H; [|now apply NoDup_keys_snoc].
    destruct H as [Hnd' [new [-> Hlen]]]. split; [exact Hnd'|].
    exists (r :: new). rewrite <- app_assoc. simpl. now rewrite Hlen.
Qed.

Lemma insert_keeps_keys_distinct_witness :
  List.NoDup (keys (seeded 0))
  /\ exists tbl',
       exec_insert 5 [key_value "feature.x" (JBool true)] (seeded 0)
       = Ok tbl'
       /\ List.NoDup (keys tbl').
Proof.
  assert (H : List.NoDup (keys (seeded 0))).
  { simpl. repeat constructor; simpl; intuition discriminate. }
  split; [exact H|]. eexists. split; [reflexivity|].
  exact (proj1 (insert_keeps_keys_distinct 5
                  [key_value "feature.x" (JBool true)] (seeded 0) _ H
                  eq_refl)).
Defined.

(** X19: the trigger is [BEFORE UPDATE] only: an [INSERT] that gives
    [updated_at] stores the client's value, not the current time. *)
Theorem insert_stores_client_updated_at :
  forall (now u : Z) (i : InsertRow) (tbl tbl' : list Row),
    i_updated_at i = VALUE (Some u) ->
    exec_insert now [i] tbl = Ok tbl' ->
    exists r, tbl' = tbl ++ [r] /\ updated_at r = u.
Proof.
  intros now u i tbl tbl' Hu H. simpl in H.
  unfold check_not_null, with_defaults in H. rewrite Hu in H. simpl in H.
  destruct (or_default (i_key i) None) as [k|]; [|discriminate].
  destruct (or_default (i_created_at i) (Some now)) as [c|];
    [|discriminate].
  simpl in H. destruct (has_key k tbl); [discriminate|].
  injection H as <-. eexists. split; reflexivity.
Qed.

Lemma insert_stores_client_updated_at_witness :
  exists r,
    exec_insert 100
      [{| i_key := VALUE (Some "feature.y");
          i_value := DEFAULT;
          i_created_at := DEFAULT;
          i_updated_at := VALUE (Some 3%Z) |}] (seeded 0)
    = Ok (seeded 0 ++ [r])
    /\ updated_at r = 3%Z /\ created_at r = 100%Z.
Proof.
  destruct (insert_stores_client_updated_at 100 3
              {| i_key := VALUE (Some "feature.y");
                 i_value := DEFAULT;
                 i_created_at := DEFAULT;
                 i_updated_at := VALUE (Some 3%Z) |}
              (seeded 0) _ eq_refl eq_refl) as [r [Hr Hu]].
  apply app_inv_head in Hr. injection Hr as <-.
  eexists. repeat split.
Defined.

Lemma update_from_keeps_keys_distinct (now : Z) (where_ : Row -> bool)
    (set : Row -> Tuple) (todo seen tbl' : list Row) :
  List.NoDup (keys (seen ++ todo)) ->
  update_from now where_ set seen todo = Ok tbl' ->
  List.NoDup (keys tbl').
Proof.
  revert seen. induction todo as [|r rest IH]; intros seen Hnd H.
  - simpl in H. injection H as <-. now rewrite app_nil_r in Hnd.
  - simpl in H. destruct (where_ r).
    + destruct (update_row now set r) as [r'|e]; [|discriminate].
      destruct (has_key (key r') (seen ++ rest)) eqn:Hk; [discriminate|].
      apply IH in H; [exact H|].
      apply NoDup_keys_middle in Hnd as [Hnd _].
      now apply NoDup_keys_replace.
    + apply IH in H; [exact H|]. now rewrite <- app_assoc.
Qed.

(** X20: an [UPDATE] that succeeds on a table with distinct keys leaves
    the keys distinct, whatever its [SET] list does to [key]. *)
Theorem update_keeps_keys_distinct :
  forall (now : Z) (where_ : Row -> bool) (set : Row -> Tuple)
         (tbl tbl' : list Row),
    List.NoDup (keys tbl) ->
    exec_update now where_ set tbl = Ok tbl' ->
    List.NoDup (keys tbl').
Proof.
  intros now where_ set tbl tbl' Hnd H.
  now apply (update_from_keeps_keys_distinct now where_ set tbl [] tbl').
Qed.

Lemma update_keeps_keys_distinct_witness :
  List.NoDup (keys (seeded 0))
  /\ exists tbl',
       exec_update 9 (key_is "llm.openai_api_key")
         (set_key (Some "llm.key")) (seeded 0) = Ok tbl'
       /\ List.NoDup (keys tbl').
Proof.
  assert (H : List.NoDup (keys (seeded 0))).
  { simpl. repeat constructor; simpl; intuition discriminate. }
  split; [exact H|]. eexists. split; [reflexivity|].
  exact (update_keeps_keys_distinct 9 (key_is "llm.openai_api_key")
           (set_key (Some "llm.key")) (seeded 0) _ H eq_refl).
Defined.

(** X21: an [UPDATE] whose [WHERE] matches no row succeeds and changes
    nothing, whatever its [SET] list, even one that would violate a
    constraint; so does an update by a key that is not in the table. *)
Theorem update_without_match_changes_nothing :
  forall (now : Z) (where_ : Row -> bool) (set : Row -> Tuple)
         (tbl : list Row),
    (forallb (fun r => negb (where_ r)) tbl = true ->
     exec_update now where_ set tbl = Ok tbl)
    /\ (forall k : string,
          has_key k tbl = false ->
          exec_update now (key_is k) set tbl = Ok tbl).
Proof.
  intros now where_ set tbl.
  assert (H : forall w, forallb (fun r => negb (w r)) tbl = true ->
                        exec_update now w set tbl = Ok tbl).
  { intros w Hw. unfold exec_update.
    rewrite <- (app_nil_r tbl) at 1.
    now rewrite update_from_skip by exact Hw. }
  split; [apply H|].
  intros k Hk. apply H. now apply has_key_false_key_is.
Qed.

Lemma update_without_match_changes_nothing_witness :
  has_key "feature.missing" (seeded 0) = false
  /\ exec_update 9 (key_is "feature.missing") (set_key None) (seeded 0)
     = Ok (seeded 0).
Proof.
  assert (H : has_key "feature.missing" (seeded 0) = false) by reflexivity.
  split; [exact H|].
  exact (proj2 (update_without_match_changes_nothing 9
                  (key_is "feature.missing") (set_key None) (seeded 0))
               "feature.missing" H).
Defined.

(** X22: an [UPDATE] succeeds on a row exactly when the proposed [key]
    and [created_at] are not [NULL]; a [NULL] proposed for [updated_at]
    never fails, since the trigger has replaced it before the check. *)
Theorem update_fails_only_on_null_key_or_created_at :
  forall (now : Z) (set : Row -> Tuple) (OLD : Row),
    ((exists r', update_row now set OLD = Ok r')
     <-> t_key (set OLD) <> None /\ t_created_at (set OLD) <> None)
    /\ (t_key (set OLD) = None ->
        update_row now set OLD = Err (not_null_violation col_key))
    /\ update_row now set OLD <> Err (not_null_violation col_updated_at).
Proof.
  intros now set OLD.
  unfold update_row, check_not_null, set_updated_at_timestamp. simpl.
  destruct (t_key (set OLD)) as [k|];
    destruct (t_created_at (set OLD)) as [c|];
    (split; [split|split]); try discriminate; try reflexivity;
    try (intros [r' H]; discriminate); try (intros [H1 H2]; congruence).
  - intros _. split; discriminate.
  - intros _. eexists. reflexivity.
Qed.

(** An [UPDATE] that matches the one row [r] between [pre] and [post]. *)
Lemma update_one_row (now : Z) (where_ : Row -> bool) (set : Row -> Tuple)
    (pre post : list Row) (r r' : Row) :
  forallb (fun x => negb (where_ x)) pre = true ->
  forallb (fun x => negb (where_ x)) post = true ->
  where_ r = true ->
  update_row now set r = Ok r' ->
  exec_update now where_ set (pre ++ r :: post)
  = if has_key (key r') (pre ++ post)
    then Err (unique_violation (key r'))
    else Ok (pre ++ r' :: post).
Proof.
  intros Hpre Hpost Hr Hrow. unfold exec_update.
  rewrite update_from_skip by exact Hpre. simpl. rewrite Hr, Hrow.
  destruct (has_key (key r') (pre ++ post)); [reflexivity|].
  rewrite <- (app_nil_r post) at 1.
  rewrite update_from_skip by exact Hpost. simpl.
  now rewrite <- app_assoc.
Qed.

Lemma others_do_not_match (pre post : list Row) (r : Row) :
  List.NoDup (keys (pre ++ r :: post)) ->
  forallb (fun x => negb (key_is (key r) x)) pre = true
  /\ forallb (fun x => negb (key_is (key r) x)) post = true
  /\ has_key (key r) (pre ++ post) = false.
Proof.
  intros Hnd. apply NoDup_keys_middle in Hnd as [_ Hfresh].
  pose proof (has_key_false_key_is _ _ Hfresh) as H.
  rewrite forallb_app in H. apply andb_true_iff in H as [H1 H2].
  repeat split; assumption.
Qed.

Lemma split_at (tbl : list Row) (i : nat) (r : Row) :
  tbl !! i = Some r ->
  tbl = take i tbl ++ r :: drop (S i) tbl
  /\ forall x, <[i:=x]> tbl = take i tbl ++ x :: drop (S i) tbl.
Proof.
  intros H. split.
  - symmetry. now apply take_drop_middle.
  - intros x. apply insert_take_drop. apply lookup_lt_is_Some. eauto.
Qed.

(** X23: on a table with distinct keys, an update of the value by the key
    of the row at position [i] succeeds and replaces that row alone, in
    place: key and [created_at] stay, the value is the new one and
    [updated_at] is the current time, whatever [updated_at] the statement
    gave. *)
Theorem update_by_key_replaces_one_row :
  forall (now : Z) (v : option jsonb) (u : option (option Z))
         (tbl : list Row) (i : nat) (r : Row),
    List.NoDup (keys tbl) ->
    tbl !! i = Some r ->
    exec_update now (key_is (key r)) (set_value v u) tbl
    = Ok (<[i := revalued now v r]> tbl).
Proof.
  intros now v u tbl i r Hnd Hi.
  destruct (split_at tbl i r Hi) as [Htbl Hins]. rewrite Hins.
  rewrite Htbl in Hnd |- * at 1.
  destruct (others_do_not_match _ _ _ Hnd) as [Hpre [Hpost Hfresh]].
  rewrite (update_one_row now _ _ _ _ r (revalued now v r) Hpre Hpost).
  - change (key (revalued now v r)) with (key r). now rewrite Hfresh.
  - unfold key_is. apply String.eqb_refl.
  - apply update_row_set_value.
Qed.

Lemma update_by_key_replaces_one_row_witness :
  List.NoDup (keys (seeded 0))
  /\ exec_update 9 (key_is "feature.new_tool_system_enabled")
       (set_value (Some (JBool false)) (Some None)) (seeded 0)
     = Ok [{| key := "llm.openai_api_key"; value := Some JNull;
              created_at := 0; updated_at := 0 |};
           {| key := "llm.anthropic_api_key"; value := Some JNull;
              created_at := 0; updated_at := 0 |};
           {| key := "feature.new_tool_system_enabled";
              value := Some (JBool false);
              created_at := 0; updated_at := 9 |}].
Proof.
  assert (H : List.NoDup (keys (seeded 0))).
  { simpl. repeat constructor; simpl; intuition discriminate. }
  split; [exact H|].
  exact (update_by_key_replaces_one_row 9 (Some (JBool false)) (Some None)
           (seeded 0) 2
           {| key := "feature.new_tool_system_enabled";
              value := Some (JBool true);
              created_at := 0; updated_at := 0 |} H eq_refl).
Defined.

(** X24: two updates of the same key in a row: the last value wins,
    [updated_at] is the time of the second update and [created_at] is
    still that of the original row. *)
Theorem last_update_wins :
  forall (t1 t2 : Z) (v1 v2 : option jsonb) (u1 u2 : option (option Z))
         (tbl tbl1 : list Row) (i : nat) (r : Row),
    List.NoDup (keys tbl) ->
    tbl !! i = Some r ->
    exec_update t1 (key_is (key r)) (set_value v1 u1) tbl = Ok tbl1 ->
    exec_update t2 (key_is (key r)) (set_value v2 u2) tbl1
    = Ok (<[i := revalued t2 v2 r]> tbl).
Proof.
  intros t1 t2 v1 v2 u1 u2 tbl tbl1 i r Hnd Hi H1.
  pose proof (update_keeps_keys_distinct _ _ _ _ _ Hnd H1) as Hnd1.
  rewrite (update_by_key_replaces_one_row t1 v1 u1 tbl i r Hnd Hi) in H1.
  injection H1 as <-.
  assert (Hi1 : <[i := revalued t1 v1 r]> tbl !! i
                = Some (revalued t1 v1 r)).
  { apply list_lookup_insert_eq. apply lookup_lt_is_Some. eauto. }
  pose proof (update_by_key_replaces_one_row t2 v2 u2 _ i _ Hnd1 Hi1) as H2.
  change (key (revalued t1 v1 r)) with (key r) in H2.
  rewrite H2, list_insert_insert_eq. reflexivity.
Qed.

Lemma last_update_wins_witness :
  exists tbl1,
    List.NoDup (keys (seeded 0))
    /\ exec_update 5 (key_is "llm.openai_api_key")
         (set_value (Some (JString "a")) None) (seeded 0) = Ok tbl1
    /\ exec_update 8 (key_is "llm.openai_api_key")
         (set_value (Some (JString "b")) None) tbl1
       = Ok (<[0%nat := {| key := "llm.openai_api_key";
                           value := Some (JString "b");
                           created_at := 0; updated_at := 8 |}]>
               (seeded 0)).
Proof.
  assert (H : List.NoDup (keys (seeded 0))).
  { simpl. repeat constructor; simpl; intuition discriminate. }
  eexists. split; [exact H|]. split; [reflexivity|].
  exact (last_update_wins 5 8 (Some (JString "a")) (Some (JString "b"))
           None None (seeded 0) _ 0
           {| key := "llm.openai_api_key"; value := Some JNull;
              created_at := 0; updated_at := 0 |} H eq_refl eq_refl).
Defined.

(** X25: with a clock that does not go back, statements that leave
    [created_at] alone keep every row's [created_at <= updated_at <= now]:
    an [UPDATE] whose [SET] list keeps [created_at], and an [INSERT] of
    (key, value) pairs. *)
Theorem timestamps_stay_ordered :
  forall (t now : Z) (tbl tbl' : list Row),
    timestamps_ok t tbl ->
    (t <= now)%Z ->
    (forall (where_ : Row -> bool) (set : Row -> Tuple),
       (forall r, t_created_at (set r) = Some (created_at r)) ->
       exec_update now where_ set tbl = Ok tbl' ->
       timestamps_ok now tbl')
    /\ (forall kvs : list (string * jsonb),
          exec_insert now (map (fun kv => key_value (fst kv) (snd kv)) kvs)
            tbl = Ok tbl' ->
          timestamps_ok now tbl').
Proof.
  intros t now tbl tbl' Hok Hle.
  assert (Hold : Forall (fun r => (created_at r <= updated_at r <= now)%Z)
                   tbl).
  { eapply Forall_impl; [exact Hok|]. simpl. intros r Hr. lia. }
  split.
  - intros where_ set Hset H. unfold exec_update in H.
    apply update_from_spec in H. destruct H as [Hlen [_ Htodo]].
    simpl in Hlen. apply Forall_lookup. intros i r' Hi.
    assert (Hlt : (i < length tbl)%nat).
    { rewrite <- Hlen. apply lookup_lt_is_Some. eauto. }
    apply lookup_lt_is_Some in Hlt as [r Hr].
    destruct (Htodo i r Hr) as [r'' [Hr'' Hw]]. simpl in Hr''.
    rewrite Hi in Hr''. injection Hr'' as <-.
    pose proof (proj1 (Forall_lookup _ _) Hok i r Hr) as Hrok.
    simpl in Hrok. destruct (where_ r).
    + pose proof (update_row_updated_at _ _ _ _ Hw) as Hu.
      unfold update_row, check_not_null, set_updated_at_timestamp in Hw.
      simpl in Hw. rewrite Hset in Hw.
      destruct (t_key (set r)); [|discriminate].
      injection Hw as <-. simpl in *. lia.
    + subst r'. lia.
  - intros kvs H. apply insert_succeeds_iff_keys_fresh in H as [-> _].
    apply Forall_app. split; [exact Hold|].
    apply Forall_forall. intros r Hin. apply list_elem_of_In in Hin.
    apply in_map_iff in Hin as [kv [<- _]]. simpl. lia.
Qed.

Lemma timestamps_stay_ordered_witness :
  timestamps_ok 0 (seeded 0)
  /\ timestamps_ok 7
       (<[1%nat := {| key := "llm.anthropic_api_key";
                      value := Some (JString "k");
                      created_at := 0; updated_at := 7 |}]> (seeded 0)).
Proof.
  assert (H : timestamps_ok 0 (seeded 0)).
  { unfold timestamps_ok. simpl. repeat constructor; simpl; lia. }
  split; [exact H|].
  refine (proj1 (timestamps_stay_ordered 0 7 (seeded 0) _ H _)
            (key_is "llm.anthropic_api_key")
            (set_value (Some (JString "k")) (Some (Some 1000%Z)))
            (fun r => eq_refl) eq_refl).
  discriminate.
Defined.

(** X26: renaming the key of the row at position [i] of a table with
    distinct keys: the update fails with a uniqueness violation when
    another row has the new key, and otherwise replaces that row alone,
    with the new key and [updated_at] at the current time. *)
Theorem rename_key_checks_uniqueness :
  forall (now : Z) (k' : string) (tbl : list Row) (i : nat) (r : Row),
    List.NoDup (keys tbl) ->
    tbl !! i = Some r ->
    exec_update now (key_is (key r)) (set_key (Some k')) tbl
    = if has_key k' tbl && negb (String.eqb k' (key r))
      then Err (unique_violation k')
      else Ok (<[i := {| key := k'; value := value r;
                         created_at := created_at r;
                         updated_at := now |}]> tbl).
Proof.
  intros now k' tbl i r Hnd Hi.
  destruct (split_at tbl i r Hi) as [Htbl Hins]. rewrite Hins.
  rewrite Htbl in Hnd. rewrite Htbl at 1. rewrite Htbl at 3.
  destruct (others_do_not_match _ _ _ Hnd) as [Hpre [Hpost Hfresh]].
  rewrite (update_one_row now _ _ _ _ r
             {| key := k'; value := value r; created_at := created_at r;
                updated_at := now |} Hpre Hpost);
    [| unfold key_is; apply String.eqb_refl | reflexivity].
  cbn [key].
  replace (has_key k' (take i tbl ++ r :: drop (S i) tbl))
    with (has_key k' (take i tbl ++ drop (S i) tbl)
          || String.eqb k' (key r)).
  - destruct (String.eqb_spec k' (key r)) as [->|Hne].
    + now rewrite Hfresh.
    + rewrite orb_false_r, andb_true_r. reflexivity.
  - rewrite !has_key_app. unfold has_key at 4. cbn [keys map existsb].
    fold (keys (drop (S i) tbl)). fold (has_key k' (drop (S i) tbl)).
    destruct (has_key k' (take i tbl)), (String.eqb k' (key r)),
      (has_key k' (drop (S i) tbl)); reflexivity.
Qed.

Lemma rename_key_checks_uniqueness_witness :
  List.NoDup (keys (seeded 0))
  /\ exec_update 9 (key_is "llm.openai_api_key")
       (set_key (Some "llm.anthropic_api_key")) (seeded 0)
     = Err (unique_violation "llm.anthropic_api_key").
Proof.
  assert (H : List.NoDup (keys (seeded 0))).
  { simpl. repeat constructor; simpl; intuition discriminate. }
  split; [exact H|].
  exact (rename_key_checks_uniqueness 9 "llm.anthropic_api_key" (seeded 0)
           0 {| key := "llm.openai_api_key"; value := Some JNull;
                created_at := 0; updated_at := 0 |} H eq_refl).
Defined.

End SettingsMore.
